(** * mongoose-patch-history: the patch-history plugin, embedded and verified

    The plugin (lib/index.js, compiled from the ES-module source) attaches
    change tracking to a mongoose schema: it snapshots documents, diffs the
    snapshot against the current data with a JSON-patch engine and stores the
    diff in a companion collection.

    The embedding is shallow.  JavaScript values are a first-order datatype;
    an object is the list of its own enumerable properties in the order
    JavaScript enumerates them (array indices first, in ascending order, then
    the other names in insertion order); a string is the sequence of its
    code units, of which the model has those below 256; numbers are the
    integers.  A property read sees own properties only.  Promises and the
    [next] callback of a hook become an outcome in an error monad over the
    state the hook touches (the query object, the tracked collection and the
    patch collection).  The external collaborators (the store's filter
    evaluation, result order and validation, the JSON-patch [compare], the
    schema factory, the fields mongoose gives a blank instance) are
    parameters. *)

From Stdlib Require Import List String Ascii ZArith NArith Bool Arith Lia.
From Stdlib Require Import DecimalString Permutation.
Import ListNotations.
Open Scope string_scope.
Open Scope list_scope.
#[local] Set Warnings "-register-all".

(** ** JavaScript values *)

(** Plain data as the plugin sees it: what a document holds, what a query
    filter or an update payload is, what [JSON.parse (JSON.stringify x)]
    returns.  [VOid] is a bson ObjectId, which JSON turns into its hex
    string.  [VFun] is a function or class: the text [String (f)] gives, its
    own enumerable properties ([props]: what [Object.keys], [Object.assign]
    and lodash see, like [Buffer.from]) and its own properties that are not
    enumerable ([hidden]: like [Array.from]). *)
Inductive jsval : Type :=
| VUndef
| VNull
| VBool (b : bool)
| VNum (n : Z)
| VStr (s : string)
| VOid (hex : string)
| VFun (text : string) (props hidden : list (string * jsval))
| VArr (items : list jsval)
| VObj (props : list (string * jsval)).

(** An object: own enumerable properties in enumeration order. *)
Definition obj : Type := list (string * jsval).

(** Induction that reaches the values inside arrays, objects and functions. *)
Section JsvalInduction.
Variable P : jsval -> Prop.
Hypothesis Hundef : P VUndef.
Hypothesis Hnull : P VNull.
Hypothesis Hbool : forall b, P (VBool b).
Hypothesis Hnum : forall n, P (VNum n).
Hypothesis Hstr : forall s, P (VStr s).
Hypothesis Hoid : forall h, P (VOid h).
Hypothesis Hfun : forall text props hidden,
  Forall (fun kv => P (snd kv)) props -> Forall (fun kv => P (snd kv)) hidden ->
  P (VFun text props hidden).
Hypothesis Harr : forall items, Forall P items -> P (VArr items).
Hypothesis Hobj : forall props, Forall (fun kv => P (snd kv)) props -> P (VObj props).

Fixpoint jsval_deep_ind (v : jsval) : P v :=
  match v with
  | VUndef => Hundef
  | VNull => Hnull
  | VBool b => Hbool b
  | VNum n => Hnum n
  | VStr s => Hstr s
  | VOid h => Hoid h
  | VFun text props hidden =>
      Hfun text props hidden
        (list_ind (Forall (fun kv => P (snd kv))) (Forall_nil _)
           (fun kv _ IH => Forall_cons kv (jsval_deep_ind (snd kv)) IH) props)
        (list_ind (Forall (fun kv => P (snd kv))) (Forall_nil _)
           (fun kv _ IH => Forall_cons kv (jsval_deep_ind (snd kv)) IH) hidden)
  | VArr items =>
      Harr items
        (list_ind (Forall P) (Forall_nil P)
           (fun x _ IH => Forall_cons x (jsval_deep_ind x) IH) items)
  | VObj props =>
      Hobj props
        (list_ind (Forall (fun kv => P (snd kv))) (Forall_nil _)
           (fun kv _ IH => Forall_cons kv (jsval_deep_ind (snd kv)) IH) props)
  end.
End JsvalInduction.

(** Structural equality, the way the store compares an identity with a
    stored [ref]. *)
Fixpoint jsval_eqb (a b : jsval) {struct a} : bool :=
  match a, b with
  | VUndef, VUndef => true
  | VNull, VNull => true
  | VBool x, VBool y => Bool.eqb x y
  | VNum x, VNum y => Z.eqb x y
  | VStr x, VStr y => String.eqb x y
  | VOid x, VOid y => String.eqb x y
  | VFun x ps hs, VFun y qs gs =>
      String.eqb x y
      && (fix props_eqb (ps qs : list (string * jsval)) {struct ps} : bool :=
            match ps, qs with
            | [], [] => true
            | (k, x) :: ps', (l, y) :: qs' =>
                String.eqb k l && jsval_eqb x y && props_eqb ps' qs'
            | _, _ => false
            end) ps qs
      && (fix props_eqb (ps qs : list (string * jsval)) {struct ps} : bool :=
            match ps, qs with
            | [], [] => true
            | (k, x) :: ps', (l, y) :: qs' =>
                String.eqb k l && jsval_eqb x y && props_eqb ps' qs'
            | _, _ => false
            end) hs gs
  | VArr xs, VArr ys =>
      (fix items_eqb (xs ys : list jsval) {struct xs} : bool :=
         match xs, ys with
         | [], [] => true
         | x :: xs', y :: ys' => jsval_eqb x y && items_eqb xs' ys'
         | _, _ => false
         end) xs ys
  | VObj ps, VObj qs =>
      (fix props_eqb (ps qs : list (string * jsval)) {struct ps} : bool :=
         match ps, qs with
         | [], [] => true
         | (k, x) :: ps', (l, y) :: qs' =>
             String.eqb k l && jsval_eqb x y && props_eqb ps' qs'
         | _, _ => false
         end) ps qs
  | _, _ => false
  end.

(** ** Truthiness, property reads and object updates *)

(** [ToBoolean]. *)
Definition truthy (v : jsval) : bool :=
  match v with
  | VUndef | VNull => false
  | VBool b => b
  | VNum n => negb (Z.eqb n 0)
  | VStr s => negb (String.eqb s "")
  | VOid _ | VFun _ _ _ | VArr _ | VObj _ => true
  end.

(** [a || b]. *)
Definition js_or (a b : jsval) : jsval := if truthy a then a else b.

(** *** Property lists *)

(** The decimal key of an array index. *)
Definition nat_key (i : nat) : string := NilEmpty.string_of_uint (Nat.to_uint i).

(** A property name that is an array index: the decimal numeral, without
    leading zeros, of a number up to 2^32 - 2.  JavaScript enumerates such
    names first, in ascending order. *)
Definition array_index (k : string) : option N :=
  match NilEmpty.uint_of_string k with
  | Some u =>
      let n := N.of_uint u in
      if String.eqb (NilEmpty.string_of_uint (N.to_uint n)) k && (n <=? 4294967294)%N
      then Some n else None
  | None => None
  end.

Section PropertyLists.
Context {A : Type}.

Fixpoint assoc_get (k : string) (o : list (string * A)) : option A :=
  match o with
  | [] => None
  | (k', v) :: rest => if String.eqb k k' then Some v else assoc_get k rest
  end.

Definition assoc_has (k : string) (o : list (string * A)) : bool :=
  match assoc_get k o with Some _ => true | None => false end.

(** An existing property keeps its place. *)
Fixpoint assoc_replace (k : string) (v : A) (o : list (string * A)) : list (string * A) :=
  match o with
  | [] => []
  | (k', v') :: rest =>
      if String.eqb k k' then (k, v) :: rest else (k', v') :: assoc_replace k v rest
  end.

(** A new array index goes after the smaller indices. *)
Fixpoint assoc_insert_index (n : N) (k : string) (v : A) (o : list (string * A))
  : list (string * A) :=
  match o with
  | [] => [(k, v)]
  | (k', v') :: rest =>
      match array_index k' with
      | Some m =>
          if (m <? n)%N then (k', v') :: assoc_insert_index n k v rest
          else (k, v) :: (k', v') :: rest
      | None => (k, v) :: (k', v') :: rest
      end
  end.

(** [o[k] = v]: an existing property keeps its place; a new one goes last,
    unless its name is an array index. *)
Definition assoc_set (k : string) (v : A) (o : list (string * A)) : list (string * A) :=
  if assoc_has k o then assoc_replace k v o
  else match array_index k with
       | Some n => assoc_insert_index n k v o
       | None => o ++ [(k, v)]
       end.

End PropertyLists.

Definition lookup (k : string) (o : obj) : option jsval := assoc_get k o.

Definition has_key (k : string) (o : obj) : bool := assoc_has k o.

Definition set_prop (k : string) (v : jsval) (o : obj) : obj := assoc_set k v o.

(** [delete o[k]]. *)
Definition delete_prop (k : string) (o : obj) : obj :=
  filter (fun kv => negb (String.eqb k (fst kv))) o.

Definition keys (o : obj) : list string := map fst o.

Fixpoint item_at (items : list jsval) (i : nat) (k : string) : jsval :=
  match items with
  | [] => VUndef
  | x :: rest => if String.eqb (nat_key i) k then x else item_at rest (S i) k
  end.

Fixpoint char_at (s : string) (i : nat) (k : string) : jsval :=
  match s with
  | EmptyString => VUndef
  | String c rest =>
      if String.eqb (nat_key i) k then VStr (String c "") else char_at rest (S i) k
  end.

(** [v[k]] on a jsval that is neither [null] nor [undefined]; the callers
    that can meet [null] or [undefined] raise their TypeError themselves. *)
Definition prop (v : jsval) (k : string) : jsval :=
  match v with
  | VObj o => match lookup k o with Some x => x | None => VUndef end
  | VFun _ props hidden =>
      match lookup k props with
      | Some x => x
      | None => match lookup k hidden with Some x => x | None => VUndef end
      end
  | VArr items =>
      if String.eqb k "length" then VNum (Z.of_nat (List.length items))
      else item_at items 0 k
  | VStr s =>
      if String.eqb k "length" then VNum (Z.of_nat (String.length s))
      else char_at s 0 k
  | _ => VUndef
  end.

Fixpoint indexed (items : list jsval) (i : nat) : obj :=
  match items with
  | [] => []
  | x :: rest => (nat_key i, x) :: indexed rest (S i)
  end.

Fixpoint chars (s : string) : list jsval :=
  match s with
  | EmptyString => []
  | String c rest => VStr (String c "") :: chars rest
  end.

(** The own enumerable properties of a value: what [Object.assign] copies
    from a source and what lodash [each] and [omit] go through; [null],
    [undefined], numbers and booleans have none. *)
Definition own_props (v : jsval) : obj :=
  match v with
  | VObj o => o
  | VFun _ props _ => props
  | VArr items => indexed items 0
  | VStr s => indexed (chars s) 0
  | _ => []
  end.

Definition assign_from (target : obj) (source : jsval) : obj :=
  fold_left (fun t kv => set_prop (fst kv) (snd kv) t) (own_props source) target.

(** [Object.assign (target, ...sources)]. *)
Definition Object_assign (target : obj) (sources : list jsval) : obj :=
  fold_left assign_from sources target.

(** ** Strings *)

(** [s.includes (c)] for a one-character needle. *)
Fixpoint String_includes (c : ascii) (s : string) : bool :=
  match s with
  | EmptyString => false
  | String c' rest => Ascii.eqb c c' || String_includes c rest
  end.

(** [s.split (sep)] for a one-character separator. *)
Fixpoint split (sep : ascii) (s : string) : list string :=
  match s with
  | EmptyString => [""]
  | String c rest =>
      if Ascii.eqb c sep then "" :: split sep rest
      else match split sep rest with
           | [] => [String c ""]
           | w :: ws => String c w :: ws
           end
  end.

(** [parts.join (sep)]. *)
Definition join (sep : string) (parts : list string) : string :=
  String.concat sep parts.

(** lodash [tail]. *)
Definition tail {A} (l : list A) : list A := List.tl l.

(** [c.toLowerCase ()] for one code unit below 256: the letters A-Z and
    the Latin-1 capitals (U+00C0 to U+00DE without the multiplication sign). *)
Definition toLowerCase (c : ascii) : ascii :=
  let n := nat_of_ascii c in
  if ((65 <=? n) && (n <=? 90) || (192 <=? n) && (n <=? 214) || (216 <=? n) && (n <=? 222))%nat
  then ascii_of_nat (n + 32) else c.

(** ** lodash [get] *)

(** *** [stringToPath]

    The path expression [rePropName] is matched from left to right; at a
    position it takes, in this order: a longest run of characters other
    than [.], [[] and []]; a bracketed number or quoted string; the empty
    key that stands before a [.] or [[]] which is itself followed by [.],
    [[]] or the end.  A character at which none of these starts is skipped. *)

Definition double_quote : ascii := ascii_of_nat 34.

Definition is_digit (c : ascii) : bool :=
  let n := nat_of_ascii c in ((48 <=? n) && (n <=? 57))%nat.

Definition plain_char (c : ascii) : bool :=
  negb (Ascii.eqb c "." || Ascii.eqb c "[" || Ascii.eqb c "]").

(** The longest prefix of digits, and what follows it. *)
Fixpoint digits (s : string) : string * string :=
  match s with
  | EmptyString => ("", "")
  | String c rest =>
      if is_digit c then let (d, r) := digits rest in (String c d, r) else ("", s)
  end.

(** [-?\d+(?:\.\d+)?] at the start of [s]: the number's text and what
    follows it. *)
Definition number (s : string) : option (string * string) :=
  let (sign, s1) :=
    match s with
    | String c rest => if Ascii.eqb c "-" then ("-", rest) else ("", s)
    | EmptyString => ("", s)
    end in
  let (int, s2) := digits s1 in
  if String.eqb int "" then None
  else
    match s2 with
    | String c s3 =>
        if Ascii.eqb c "." then
          let (frac, s4) := digits s3 in
          if String.eqb frac "" then Some ((sign ++ int)%string, s2)
          else Some ((sign ++ int ++ "." ++ frac)%string, s4)
        else Some ((sign ++ int)%string, s2)
    | EmptyString => Some ((sign ++ int)%string, s2)
    end.

Definition line_terminator (c : ascii) : bool :=
  Nat.eqb (nat_of_ascii c) 10 || Nat.eqb (nat_of_ascii c) 13.

(** [((?:(?!\2)[^\\]|\\.)*?)\2\]] after an opening quote [q]: the text up
    to the closing quote, which must be followed by []]. *)
Fixpoint quoted (q : ascii) (s : string) : option string :=
  match s with
  | EmptyString => None
  | String c rest =>
      if Ascii.eqb c q then
        match rest with
        | String d _ => if Ascii.eqb d "]" then Some "" else None
        | EmptyString => None
        end
      else if Ascii.eqb c "\" then
        match rest with
        | String d rest' =>
            if line_terminator d then None
            else option_map (fun t => String c (String d t)) (quoted q rest')
        | EmptyString => None
        end
      else option_map (String c) (quoted q rest)
  end.

(** [subString.replace (reEscapeChar, '$1')]: a backslash goes, unless it
    follows a backslash that went. *)
Fixpoint unescape (s : string) : string :=
  match s with
  | EmptyString => ""
  | String c rest =>
      if Ascii.eqb c "\" then
        match rest with
        | String d rest' => if Ascii.eqb d "\" then String d (unescape rest') else unescape rest
        | EmptyString => ""
        end
      else String c (unescape rest)
  end.

(** A bracketed key at the start of [s]: the key and the number of
    characters the brackets and their content take. *)
Definition bracketed (s : string) : option (string * nat) :=
  match s with
  | String c rest =>
      if Ascii.eqb c "[" then
        match number rest with
        | Some (text, String d _) =>
            if Ascii.eqb d "]" then Some (text, String.length text + 2)%nat else None
        | Some (_, EmptyString) => None
        | None =>
            match rest with
            | String q rest' =>
                if Ascii.eqb q double_quote || Ascii.eqb q "'" then
                  match quoted q rest' with
                  | Some raw => Some (unescape raw, String.length raw + 4)%nat
                  | None => None
                  end
                else None
            | EmptyString => None
            end
        end
      else None
  | EmptyString => None
  end.

(** [\.|\[\]] at the start of [s]: what follows it. *)
Definition separator (s : string) : option string :=
  match s with
  | String c rest =>
      if Ascii.eqb c "." then Some rest
      else if Ascii.eqb c "[" then
        match rest with
        | String d rest' => if Ascii.eqb d "]" then Some rest' else None
        | EmptyString => None
        end
      else None
  | EmptyString => None
  end.

(** [(?=(?:\.|\[\])(?:\.|\[\]|$))]. *)
Definition empty_key_ahead (s : string) : bool :=
  match separator s with
  | Some EmptyString => true
  | Some rest => match separator rest with Some _ => true | None => false end
  | None => false
  end.

Definition flush (run : string) : list string :=
  match run with EmptyString => [] | _ => [run] end.

(** The keys from a position on; [run] is the run of plain characters read
    so far, [skip] the number of characters still to pass over after a
    bracketed key. *)
Fixpoint scan (skip : nat) (run : string) (s : string) : list string :=
  match s with
  | EmptyString => flush run
  | String c rest =>
      match skip with
      | S n => scan n run rest
      | O =>
          if plain_char c then scan 0 (run ++ String c "")%string rest
          else
            flush run
            ++ match bracketed s with
               | Some (key, len) => key :: scan (len - 1) "" rest
               | None =>
                   (if empty_key_ahead s then [""] else []) ++ scan 0 "" rest
               end
      end
  end.

Definition stringToPath (s : string) : list string :=
  (match s with
   | String c _ => if Ascii.eqb c "." then [""] else []
   | EmptyString => []
   end)
  ++ scan 0 "" s.

(** [reIsDeepProp]: a dot, or an opening bracket with a closing bracket
    somewhere after it. *)
Fixpoint bracket_pair (s : string) : bool :=
  match s with
  | EmptyString => false
  | String c rest => if Ascii.eqb c "[" then String_includes "]" rest else bracket_pair rest
  end.

Definition reIsDeepProp (s : string) : bool := String_includes "." s || bracket_pair s.

(** [isKey]: a path with neither dot nor bracket syntax, or one that is
    itself a property of the object. *)
Definition isKey (path : string) (o : jsval) : bool :=
  negb (reIsDeepProp path)
  || match o with
     | VObj ps => has_key path ps
     | VFun _ ps hs => has_key path ps || has_key path hs
     | _ => false
     end.

Definition castPath (o : jsval) (path : string) : list string :=
  if isKey path o then [path] else stringToPath path.

Fixpoint baseGet (o : jsval) (segs : list string) : jsval :=
  match segs with
  | [] => o
  | k :: rest =>
      match o with
      | VUndef | VNull => VUndef
      | _ => baseGet (prop o k) rest
      end
  end.

(** [get (object, path)] for a string path; a path that yields no key
    gives [undefined]. *)
Definition get (o : jsval) (path : string) : jsval :=
  match o with
  | VUndef | VNull => VUndef
  | _ => match castPath o path with
         | [] => VUndef
         | segs => baseGet o segs
         end
  end.

(** ** JSON round trip and property names *)

(** [JSON.parse (JSON.stringify (v))] below the top level: a property
    holding [undefined] or a function is dropped, such an array item becomes
    [null], an ObjectId becomes its hex string. *)
Fixpoint toJSON_value (v : jsval) : jsval :=
  match v with
  | VUndef | VFun _ _ _ => VNull
  | VOid hex => VStr hex
  | VArr items => VArr (map toJSON_value items)
  | VObj ps =>
      VObj ((fix props (ps : list (string * jsval)) : list (string * jsval) :=
               match ps with
               | [] => []
               | (k, VUndef) :: rest | (k, VFun _ _ _) :: rest => props rest
               | (k, x) :: rest => (k, toJSON_value x) :: props rest
               end) ps)
  | other => other
  end.

(** [toJSON] of the source, applied to the object [data ()] returns. *)
Definition toJSON (o : obj) : obj :=
  match toJSON_value (VObj o) with
  | VObj ps => ps
  | _ => []
  end.

(** [ToPropertyKey]: the property name a value stands for where a name is
    expected.  A function gives its text, an array its items joined by
    commas. *)
Fixpoint to_key (v : jsval) : string :=
  match v with
  | VStr s => s
  | VOid hex => hex
  | VNum n => NilEmpty.string_of_int (Z.to_int n)
  | VBool true => "true"
  | VBool false => "false"
  | VNull => "null"
  | VUndef => "undefined"
  | VFun text _ _ => text
  | VArr items =>
      join "," (map (fun x => match x with VUndef | VNull => "" | _ => to_key x end) items)
  | VObj _ => "[object Object]"
  end.

(** ** Errors, promises and the hook monad *)

Inductive error : Type :=
| TypeError (message : string)
| ReferenceError (message : string)
| AssertionError (message : string)
| ValidationError (message : string)
| OverwriteModelError (message : string).

Inductive result (A : Type) : Type :=
| Ok (a : A)
| Throw (e : error).
Arguments Ok {A} a.
Arguments Throw {A} e.

(** A computation over a state [S]: a hook that calls [next ()] returns
    [Ok], one that calls [next (err)] or throws returns [Throw err]; the
    state is what it leaves behind either way. *)
Definition M (S A : Type) : Type := S -> result A * S.

Definition ret {S A} (a : A) : M S A := fun s => (Ok a, s).
Definition throw {S A} (e : error) : M S A := fun s => (Throw e, s).
Definition bind {S A B} (c : M S A) (k : A -> M S B) : M S B :=
  fun s => match c s with
           | (Ok a, s') => k a s'
           | (Throw e, s') => (Throw e, s')
           end.
Definition gets {S A} (f : S -> A) : M S A := fun s => (Ok (f s), s).
Definition modify {S} (f : S -> S) : M S unit := fun s => (Ok tt, f s).

(** A value that may have been thrown instead. *)
Definition lift {S A} (r : result A) : M S A := fun s => (r, s).

Declare Scope hook_scope.
Delimit Scope hook_scope with hook.
Notation "x <- c ;; k" := (bind c (fun x => k))
  (at level 61, c at next level, right associativity) : hook_scope.
Notation "c ;;; k" := (bind c (fun _ => k))
  (at level 61, right associativity) : hook_scope.
Open Scope hook_scope.

(** [assert (cond, message)]. *)
Definition assert {S} (cond : bool) (message : string) : M S unit :=
  if cond then ret tt else throw (AssertionError message).

(** A promise, as it settles.  A computation that returns a promise has
    already left in the state what the promise's work does to it. *)
Inductive promise : Type :=
| Resolved
| Rejected (e : error).

(** [promise.then (() => next ()).catch (next)]. *)
Definition settle {S} (p : promise) : M S unit :=
  match p with
  | Resolved => ret tt
  | Rejected e => throw e
  end.

(** [Promise.all (promises)]: rejected as soon as one of them is. *)
Fixpoint Promise_all (promises : list promise) : promise :=
  match promises with
  | [] => Resolved
  | Resolved :: rest => Promise_all rest
  | Rejected e :: _ => Rejected e
  end.

(** [l.map ((x, i) => f (x, i))] for a callback that can throw: the calls
    are made in order, and a throw ends them. *)
Fixpoint map_indexed {St A B} (f : A -> nat -> M St B) (l : list A) (i : nat)
  : M St (list B) :=
  match l with
  | [] => ret []
  | x :: rest =>
      y <- f x i ;;
      ys <- map_indexed f rest (S i) ;;
      ret (y :: ys)
  end.

(** lodash [each] over the entries of a collection, for a callback that
    updates [acc] and can throw. *)
Fixpoint each {A B} (f : B -> string * A -> result B) (l : list (string * A)) (acc : B)
  : result B :=
  match l with
  | [] => Ok acc
  | x :: rest =>
      match f acc x with
      | Ok acc' => each f rest acc'
      | Throw e => Throw e
      end
  end.

(** ** Data model *)

(** One operation of a JSON patch, as [jsonpatch.compare] returns it;
    [originalValue] is [None] until the plugin sets the property. *)
Record entry : Type := {
  op : string;
  path : string;
  value : jsval;
  originalValue : option jsval
}.

(** A field of the record handed to [Patches.create]. *)
Inductive field : Type :=
| FOps (ops : list entry)
| FVal (v : jsval).

(** A patch record as the plugin hands it to the patch model:
    [{ ops, ref, ...included fields }]. *)
Definition Patch : Type := list (string * field).

Definition field_of (k : string) (p : Patch) : option field := assoc_get k p.

Definition set_field (k : string) (f : field) (p : Patch) : Patch := assoc_set k f p.

(** The operations and the owner a stored patch record shows. *)
Definition patch_ops (p : Patch) : list entry :=
  match field_of "ops" p with Some (FOps l) => l | _ => [] end.

Definition patch_ref (p : Patch) : jsval :=
  match field_of "ref" p with Some (FVal r) => r | _ => VUndef end.

(** A row of the tracked collection, as mongoose hydrates it: the fields
    of the stored document, with the schema's defaults where the stored
    document has none. *)
Record Row : Type := { row_id : jsval; row_fields : obj }.

(** A mongoose document instance.  [fields] are the schema paths other
  than [_id]; [locals] is whatever else the instance exposes under a
  name: virtuals and properties set on it. *)
Module Document.
Record t : Type := {
  _id : jsval;
  isNew : bool;
  _original : jsval;
  fields : obj;
  locals : obj
}.
Definition set__original (v : jsval) (d : t) : t :=
  {| _id := _id d; isNew := isNew d; _original := v;
     fields := fields d; locals := locals d |}.
End Document.
Abbreviation Document := Document.t.

(** The query object a query hook runs on ([this]). *)
Module Query.
Record t : Type := {
  _conditions : jsval;
  _update : jsval;
  options : obj;
  _original : jsval;
  _originalId : jsval;
  _originalIds : option (list jsval);
  _originals : option (list jsval)
}.
Definition set__original (v : jsval) (q : t) : t :=
  {| _conditions := _conditions q; _update := _update q; options := options q;
     _original := v; _originalId := _originalId q;
     _originalIds := _originalIds q; _originals := _originals q |}.
Definition set__originalId (v : jsval) (q : t) : t :=
  {| _conditions := _conditions q; _update := _update q; options := options q;
     _original := _original q; _originalId := v;
     _originalIds := _originalIds q; _originals := _originals q |}.
Definition set_originals (ids data : list jsval) (q : t) : t :=
  {| _conditions := _conditions q; _update := _update q; options := options q;
     _original := _original q; _originalId := _originalId q;
     _originalIds := Some ids; _originals := Some data |}.
End Query.
Abbreviation Query := Query.t.

(** What the hooks read and write in the store: the tracked collection and
    the patch collection. *)
Record World : Type := { rows : list Row; patches : list Patch }.

(** ** Configuration *)

(** The plugin's options after [merge ({}, defaultOptions, opts)]. *)
Record Options : Type := {
  mongoose : jsval;
  name : jsval;
  schema : jsval;
  includes : jsval;
  removePatches : jsval;
  trackOriginalValue : jsval
}.

(** A default applies where the caller's value is [undefined]. *)
Definition or_default (given dflt : jsval) : jsval :=
  match given with VUndef => dflt | _ => given end.

(** [merge ({}, defaultOptions, opts)] with
    [defaultOptions = { includes: {}, excludes: [], removePatches: true,
    trackOriginalValue: false }]. *)
Definition mergeOptions (opts : jsval) : Options :=
  {| mongoose := prop opts "mongoose";
     name := prop opts "name";
     schema := prop opts "schema";
     includes := or_default (prop opts "includes") (VObj []);
     removePatches := or_default (prop opts "removePatches") (VBool true);
     trackOriginalValue := or_default (prop opts "trackOriginalValue") (VBool false) |}.

Inductive stage : Type := pre | post.

(** The host schema: what the plugin reads of it and what it adds to it.
    [tree__id] is [schema.tree._id], [versionKey] and [timestamps] are
    [schema.options]; [defaults] are the paths mongoose fills in for an
    instance built from [{}]. *)
Record Schema : Type := {
  tree__id : jsval;
  methods : list string;
  statics : list string;
  virtuals : list string;
  hooks : list (stage * string);
  versionKey : jsval;
  timestamps : jsval;
  defaults : obj
}.

(** lodash [omit (type, 'from')]: a new object with the value's own
    enumerable properties other than [from].  (What an ObjectId instance
    holds is not part of the model.) *)
Definition omit_from (type : jsval) : jsval := VObj (delete_prop "from" (own_props type)).

(** A built-in function, by its name; its own properties are left out
    where nothing reads them. *)
Definition builtin (name : string) : jsval :=
  VFun ("function " ++ name ++ "() { [native code] }") [] [].

(** The fields the patch schema has before the included fields are added. *)
Definition own_definitions (_idType : jsval) : obj :=
  [("date", VObj [("type", builtin "Date"); ("required", VBool true);
                  ("default", builtin "now")]);
   ("ops", VObj [("type", VArr []); ("required", VBool true)]);
   ("ref", VObj [("type", _idType); ("required", VBool true); ("index", VBool true)])].

(** The field definitions [createPatchModel] builds: the plugin's own
    and, over them, one per included field. *)
Definition patch_definitions (options : Options) (_idType : jsval) : obj :=
  fold_left (fun def nt => set_prop (fst nt) (omit_from (snd nt)) def)
    (own_props (includes options)) (own_definitions _idType).

(** ** External collaborators *)

(** fast-json-patch. *)
Class DiffEngine : Type := {
  compare : jsval -> jsval -> list entry
}.

(** The store behind [Model.find], [Model.findOne] and [Patches.create]:
    which rows a filter selects ([matches]); the order in which a query
    with given conditions and options returns the rows it selects, handed
    over in the collection's order ([arrange]); which records the patch
    model, built from given field definitions, accepts ([validates]); and
    the identity a new instance gets.  The two filters the plugin builds
    itself select by identity. *)
Class Store : Type := {
  matches : jsval -> Row -> bool;
  arrange : jsval -> obj -> list Row -> list Row;
  validates : obj -> Patch -> bool;
  new_id : jsval;
  arrange_permutes : forall conditions options rs,
    Permutation (arrange conditions options rs) rs;
  matches_eq : forall id r,
    matches (VObj [("_id", VObj [("$eq", id)])]) r = jsval_eqb (row_id r) id;
  matches_in : forall ids r,
    matches (VObj [("_id", VObj [("$in", VArr ids)])]) r
    = existsb (jsval_eqb (row_id r)) ids
}.

(** The schema factory, [options.schema]: the field definitions it builds
    a schema from without throwing. *)
Class SchemaFactory : Type := {
  well_formed : obj -> bool
}.

(** What the hooks close over once the plugin is attached. *)
Class Attached : Type := {
  options : Options;
  host : Schema
}.

(** ** The plugin *)

(** [mergeQueryConditionsWithUpdate] (lib/index.js).  The line
    [var conditions = Object.assign ({}, conditions, update)] names on its
    right-hand side the variable it declares, which is still [undefined]
    there: the parameter [_conditions] is never read. *)
Definition mergeQueryConditionsWithUpdate (_conditions _update : jsval) : obj :=
  let update := if truthy _update then js_or (prop _update "$set") _update else _update in
  let conditions_uninitialised := VUndef in
  let conditions := Object_assign [] [conditions_uninitialised; update] in
  fold_left
    (fun conditions key =>
       if String_includes "$"%char key then delete_prop key conditions else conditions)
    (keys conditions) conditions.

(** The same function in the ES-module source, run without transpiling:
    there [conditions] is a [const], and reading it inside its own
    initialiser is a ReferenceError. *)
Definition mergeQueryConditionsWithUpdate_esm (_conditions _update : jsval) : result obj :=
  let update := if truthy _update then js_or (prop _update "$set") _update else _update in
  Throw (ReferenceError "Cannot access 'conditions' before initialization").

(** The filter the specification describes: the query conditions merged
    with the update's [$set] payload (or the whole payload), every key
    containing an update operator removed. *)
Definition merged_filter_spec (_conditions _update : jsval) : obj :=
  let payload := if truthy _update then js_or (prop _update "$set") _update else _update in
  filter (fun kv => negb (String_includes "$"%char (fst kv)))
         (Object_assign [] [_conditions; payload]).

Section Plugin.
Context {engine : DiffEngine} {store : Store} {attached : Attached}.

(** [this.toObject ({ depopulate: true, versionKey: false, ... })] before
    the transform runs; documents are held depopulated, and what mongoose
    does to subdocuments and to empty objects is not part of the model. *)
Definition toObject (d : Document) : obj :=
  let ret := ("_id", Document._id d) :: Document.fields d in
  if truthy (versionKey host) then delete_prop (to_key (versionKey host)) ret else ret.

(** [schema.methods.data]. *)
Definition data (d : Document) : obj :=
  let ret := delete_prop "_id" (toObject d) in
  if truthy (timestamps host) then
    let ret :=
      delete_prop (to_key (js_or (prop (timestamps host) "createdAt") (VStr "createdAt")))
                  ret in
    delete_prop (to_key (js_or (prop (timestamps host) "updatedAt") (VStr "updatedAt"))) ret
  else ret.

(** The post-init and post-save hook. *)
Definition snapshot (d : Document) : Document :=
  Document.set__original (VObj (toJSON (data d))) d.

(** A row read from the store becomes an instance, and post-init runs. *)
Definition init (r : Row) : Document :=
  snapshot {| Document._id := row_id r; Document.isNew := false;
              Document._original := VUndef;
              Document.fields := row_fields r; Document.locals := [] |}.

(** [new this.model ({})]. *)
Definition blank : Document :=
  {| Document._id := new_id; Document.isNew := true;
     Document._original := VUndef;
     Document.fields := defaults host; Document.locals := [] |}.

(** The rows a query with these conditions and options returns, in the
    order it returns them. *)
Definition fetch (conditions : jsval) (opts : obj) (w : World) : list Row :=
  arrange conditions opts (filter (matches conditions) (rows w)).

(** [this.model.find (conditions)]: no options are passed on. *)
Definition find (conditions : jsval) : M World (list Document) :=
  gets (fun w => map init (fetch conditions [] w)).

(** [this.model.findOne (conditions)]: no options are passed on. *)
Definition findOne (conditions : jsval) : M World (option Document) :=
  gets (fun w => List.hd_error (map init (fetch conditions [] w))).

(** [document[k]]. *)
Definition doc_prop (d : Document) (k : string) : jsval :=
  if String.eqb k "_id" then Document._id d
  else if String.eqb k "isNew" then VBool (Document.isNew d)
  else if String.eqb k "_original" then Document._original d
  else match lookup k (Document.locals d) with
       | Some v => v
       | None => prop (VObj (Document.fields d)) k
       end.

(** [Patches.find ({ ref })]. *)
Definition has_ref (ref : jsval) (p : Patch) : bool := jsval_eqb (patch_ref p) ref.

(** [deletePatches]: [find ({ ref })] returns the records whose [ref] is
    the document's identity, and each of them is removed.  The argument is
    [None] when the caller passes [null]. *)
Definition deletePatches (document : option Document) : M World unit :=
  match document with
  | None => throw (TypeError "Cannot read property '_id' of null")
  | Some document =>
      modify (fun w =>
                {| rows := rows w;
                   patches := filter (fun patch => negb (has_ref (Document._id document) patch))
                                     (patches w) |})
  end.

(** pre remove *)
Definition preRemove (this : Document) : M World unit :=
  if negb (truthy (removePatches options)) then ret tt
  else deletePatches (Some this).

(** The baseline [compare] starts from. *)
Definition baseline (document : Document) : jsval :=
  if Document.isNew document then VObj []
  else js_or (Document._original document) (VObj []).

Definition diff (document : Document) : list entry :=
  compare (baseline document) (VObj (toJSON (data document))).

(** The dotted path of an operation: [tail (entry.path.split ('/')).join ('.')]. *)
Definition dotted (p : string) : string := join "." (tail (split "/"%char p)).

(** The body of [ops.map] when original values are tracked. *)
Definition track (document : Document) (e : entry) : entry :=
  {| op := op e; path := path e; value := value e;
     originalValue :=
       Some (get (if Document.isNew document then VObj [] else Document._original document)
                 (dotted (path e))) |}.

(** [type.from || name], as the property name it is used as; reading
    [from] of [null] or [undefined] throws. *)
Definition include_key (type : jsval) (name : string) : result string :=
  match type with
  | VUndef => Throw (TypeError "Cannot read property 'from' of undefined")
  | VNull => Throw (TypeError "Cannot read property 'from' of null")
  | _ => Ok (to_key (js_or (prop type "from") (VStr name)))
  end.

(** [{ ops, ref }] and then one assignment per included field. *)
Definition assemble (document : Document) (queryOptions : obj) (ops : list entry)
  : result Patch :=
  each
    (fun data nt =>
       match include_key (snd nt) (fst nt) with
       | Ok k =>
           Ok (set_field (fst nt)
                 (FVal (js_or (doc_prop document k) (prop (VObj queryOptions) k))) data)
       | Throw e => Throw e
       end)
    (own_props (includes options))
    [("ops", FOps ops); ("ref", FVal (Document._id document))].

(** The field definitions of the patch model [createPatchModel] has built. *)
Definition patch_fields : obj := patch_definitions options (prop (tree__id host) "type").

(** [document.patches.create (data)]: the patch model validates the record
    and stores it, or rejects it.  (Of the stored document the model keeps
    the record handed over: the date and the identity mongoose adds are
    left out.) *)
Definition Patches_create (data : Patch) : M World promise :=
  fun w =>
    if validates patch_fields data
    then (Ok Resolved, {| rows := rows w; patches := patches w ++ [data] |})
    else (Ok (Rejected (ValidationError "Validation failed")), w).

(** [createPatch (document, queryOptions = {})]. *)
Definition createPatch (document : Document) (queryOptions : option obj) : M World promise :=
  let queryOptions := match queryOptions with Some o => o | None => [] end in
  let ops := diff document in
  if Nat.eqb (List.length ops) 0 then ret Resolved
  else
    let ops := if truthy (trackOriginalValue options) then map (track document) ops else ops in
    data <- lift (assemble document queryOptions ops) ;;
    Patches_create data.

(** pre save *)
Definition preSave (this : Document) : M World unit :=
  created <- createPatch this None ;;
  settle created.

(** pre findOneAndRemove *)
Definition preFindOneAndRemove (this : Query) : M World unit :=
  if negb (truthy (removePatches options)) then ret tt
  else
    original <- findOne (Query._conditions this) ;;
    deletePatches original.

(** pre findOneAndUpdate, pre updateOne *)
Definition preUpdateOne (this : Query) : M World Query :=
  original <- findOne (Query._conditions this) ;;
  let this := match original with
              | Some o => Query.set__originalId (Document._id o) this
              | None => this
              end in
  let original := match original with Some o => o | None => blank end in
  ret (Query.set__original (VObj (toJSON (data original))) this).

(** [result.nModified === 0 && !result.upserted] *)
Definition nothing_modified (result : jsval) : bool :=
  jsval_eqb (prop result "nModified") (VNum 0) && negb (truthy (prop result "upserted")).

(** post updateOne *)
Definition postUpdateOne (this : Query) (result : jsval) : M World unit :=
  if nothing_modified result then ret tt
  else
    let conditions :=
      if truthy (Query._originalId this)
      then VObj [("_id", VObj [("$eq", Query._originalId this)])]
      else VObj (mergeQueryConditionsWithUpdate (Query._conditions this) (Query._update this)) in
    doc <- findOne conditions ;;
    match doc with
    | None => ret tt
    | Some doc =>
        created <- createPatch (Document.set__original (Query._original this) doc)
                               (Some (Query.options this)) ;;
        settle created
    end.

(** post findOneAndUpdate: [postUpdateOne.call (this, {}, next)] *)
Definition postFindOneAndUpdate (this : Query) (doc : jsval) : M World unit :=
  postUpdateOne this (VObj []).

(** pre updateMany *)
Definition preUpdateMany (this : Query) : M World Query :=
  originals <- find (Query._conditions this) ;;
  let originalIds := map Document._id originals in
  let originalData := map (fun original => VObj (toJSON (data original))) originals in
  ret (Query.set_originals originalIds originalData this).

(** post updateMany.  The callback of [docs.map] is run for every
    document in turn, each call starting the creation of a patch;
    [Promise.all] of what they return is rejected when one creation is.
    (The creations are taken to complete in the documents' order.) *)
Definition postUpdateMany (this : Query) (result : jsval) : M World unit :=
  if nothing_modified result then ret tt
  else
    match Query._originalIds this with
    | None => throw (TypeError "Cannot read property 'length' of undefined")
    | Some originalIds =>
        let conditions :=
          if Nat.eqb (List.length originalIds) 0
          then VObj (mergeQueryConditionsWithUpdate (Query._conditions this) (Query._update this))
          else VObj [("_id", VObj [("$in", VArr originalIds)])] in
        docs <- find conditions ;;
        created <- map_indexed
                     (fun doc i =>
                        match Query._originals this with
                        | None => throw (TypeError "Cannot read property of undefined")
                        | Some originals =>
                            createPatch (Document.set__original (nth i originals VUndef) doc)
                                        (Some (Query.options this))
                        end)
                     docs 0 ;;
        settle (Promise_all created)
    end.

(** pre update *)
Definition preUpdate (this : Query) : M World Query :=
  if truthy (prop (VObj (Query.options this)) "multi")
  then preUpdateMany this else preUpdateOne this.

(** post update *)
Definition postUpdate (this : Query) (result : jsval) : M World unit :=
  if truthy (prop (VObj (Query.options this)) "multi")
  then postUpdateMany this result else postUpdateOne this result.

(** *** The removals the hooks run in

    What mongoose does around the two removal hooks: the pre hook runs, and
    when it has called [next ()] the store removes the document.  An
    instance removes itself; a query removes the first of the documents its
    filter selects, in the order its options ask for. *)

Definition remove_row (id : jsval) : M World unit :=
  modify (fun w => {| rows := filter (fun r => negb (jsval_eqb (row_id r) id)) (rows w);
                      patches := patches w |}).

(** [document.remove ()] *)
Definition Document_remove (this : Document) : M World unit :=
  preRemove this ;;;
  remove_row (Document._id this).

(** [Model.findOneAndRemove (conditions, options)]: the removed row, if any. *)
Definition Model_findOneAndRemove (this : Query) : M World (option Row) :=
  preFindOneAndRemove this ;;;
  target <- gets (fun w => List.hd_error (fetch (Query._conditions this) (Query.options this) w)) ;;
  match target with
  | Some r => remove_row (row_id r) ;;; ret (Some r)
  | None => ret None
  end.

End Plugin.

(** ** Attaching the plugin *)

(** The state of set-up: the host schema and the models registered with
    the connector (model name, collection name, field definitions). *)
Record Setup : Type := {
  the_schema : Schema;
  models : list (string * string * obj)
}.

Definition registered (model_name : string) (s : Setup) : bool :=
  existsb (fun m => String.eqb (fst (fst m)) model_name) (models s).

Section Attaching.
Context {factory : SchemaFactory}.

(** [createPatchModel]: the field definitions, the patch schema, the
    model.  The schema factory throws on definitions it does not take, and
    the connector's [model] on a name that is registered already. *)
Definition createPatchModel (options : Options) (_idType : jsval) : M Setup unit :=
  let def := patch_definitions options _idType in
  match schema options with
  | VFun _ _ _ =>
      if well_formed def then
        match name options with
        | VStr (String c rest) =>
            match prop (mongoose options) "model" with
            | VFun _ _ _ =>
                taken <- gets (registered (String c rest)) ;;
                if taken
                then throw (OverwriteModelError "Cannot overwrite model once compiled.")
                else
                  modify (fun s =>
                            {| the_schema := the_schema s;
                               models := models s
                                         ++ [(String c rest, String (toLowerCase c) rest, def)] |})
            | _ => throw (TypeError "options.mongoose.model is not a function")
            end
        | _ => throw (TypeError "Cannot read property 'toLowerCase' of undefined")
        end
      else throw (TypeError "Invalid schema configuration")
  | _ => throw (TypeError "options.schema is not a constructor")
  end.

Definition add_method (m : string) (s : Setup) : Setup :=
  {| the_schema :=
       {| tree__id := tree__id (the_schema s); methods := methods (the_schema s) ++ [m];
          statics := statics (the_schema s); virtuals := virtuals (the_schema s);
          hooks := hooks (the_schema s); versionKey := versionKey (the_schema s);
          timestamps := timestamps (the_schema s); defaults := defaults (the_schema s) |};
     models := models s |}.

Definition add_accessors (s : Setup) : Setup :=
  {| the_schema :=
       {| tree__id := tree__id (the_schema s); methods := methods (the_schema s);
          statics := statics (the_schema s) ++ ["Patches"];
          virtuals := virtuals (the_schema s) ++ ["patches"];
          hooks := hooks (the_schema s); versionKey := versionKey (the_schema s);
          timestamps := timestamps (the_schema s); defaults := defaults (the_schema s) |};
     models := models s |}.

Definition add_hook (st : stage) (event : string) (s : Setup) : Setup :=
  {| the_schema :=
       {| tree__id := tree__id (the_schema s); methods := methods (the_schema s);
          statics := statics (the_schema s); virtuals := virtuals (the_schema s);
          hooks := hooks (the_schema s) ++ [(st, event)];
          versionKey := versionKey (the_schema s);
          timestamps := timestamps (the_schema s); defaults := defaults (the_schema s) |};
     models := models s |}.

(** The default export: [function (schema, opts)]. *)
Definition plugin (opts : jsval) : M Setup unit :=
  let options := mergeOptions opts in
  tree_id <- gets (fun s => tree__id (the_schema s)) ;;
  _idType <- match tree_id with
             | VUndef | VNull => throw (TypeError "Cannot read property 'type' of undefined")
             | t => ret (prop t "type")
             end ;;
  assert (truthy (mongoose options)) "`mongoose` option must be defined" ;;;
  assert (truthy (name options)) "`name` option must be defined" ;;;
  has_data <- gets (fun s => existsb (String.eqb "data") (methods (the_schema s))) ;;
  assert (negb has_data) "conflicting instance method: `data`" ;;;
  assert (truthy _idType) "schema is missing an `_id` property" ;;;
  modify (add_method "data") ;;;
  createPatchModel options _idType ;;;
  modify add_accessors ;;;
  modify (add_hook post "init") ;;;
  modify (add_hook post "save") ;;;
  modify (add_hook pre "remove") ;;;
  modify (add_hook pre "save") ;;;
  modify (add_hook pre "findOneAndRemove") ;;;
  modify (add_hook pre "findOneAndUpdate") ;;;
  modify (add_hook post "findOneAndUpdate") ;;;
  modify (add_hook pre "updateOne") ;;;
  modify (add_hook post "updateOne") ;;;
  modify (add_hook pre "updateMany") ;;;
  modify (add_hook post "updateMany") ;;;
  modify (add_hook pre "update") ;;;
  modify (add_hook post "update").

End Attaching.

(** ** Notions the properties are stated with *)

(** A key that holds an update operator. *)
Definition operator_key (kv : string * jsval) : bool := String_includes "$"%char (fst kv).

(** The first included field whose definition is [null] or [undefined],
    as the error that reading its [from] raises. *)
Fixpoint first_unreadable (l : obj) : option error :=
  match l with
  | [] => None
  | (_, VUndef) :: _ => Some (TypeError "Cannot read property 'from' of undefined")
  | (_, VNull) :: _ => Some (TypeError "Cannot read property 'from' of null")
  | _ :: rest => first_unreadable rest
  end.

(** The property name an included field is read under: the definition's
    [from] when that is truthy, the field's own name otherwise. *)
Definition source_key (type : jsval) (name : string) : string :=
  if truthy (prop type "from") then to_key (prop type "from") else name.







(** Plain JSON: no [undefined], no function, no ObjectId, at any depth. *)
Fixpoint is_json (v : jsval) : bool :=
  match v with
  | VUndef | VOid _ | VFun _ _ _ => false
  | VArr items => forallb is_json items
  | VObj ps =>
      (fix all_json (ps : list (string * jsval)) : bool :=
         match ps with
         | [] => true
         | (_, x) :: rest => is_json x && all_json rest
         end) ps
  | _ => true
  end.

(** What a diff operation says, without the annotation. *)
Definition core (e : entry) : string * string * jsval := (op e, path e, value e).

(** A hook that leaves the tracked collection alone and every stored
    patch where it is, adding patches at the end at most. *)
Definition appends_only {A : Type} (c : M World A) : Prop :=
  forall w,
    rows (snd (c w)) = rows w
    /\ exists added, patches (snd (c w)) = patches w ++ added.

(** The hooks [plugin] registers, in the order it registers them. *)
Definition installed_hooks : list (stage * string) :=
  [(post, "init"); (post, "save"); (pre, "remove"); (pre, "save");
   (pre, "findOneAndRemove"); (pre, "findOneAndUpdate"); (post, "findOneAndUpdate");
   (pre, "updateOne"); (post, "updateOne"); (pre, "updateMany"); (post, "updateMany");
   (pre, "update"); (post, "update")].

(** The set-up state a successful attachment leaves: the method, the two
    accessors, the hooks and the patch model added to what was there. *)
Definition attached_setup (opts : jsval) (s : Setup) : Setup :=
  {| the_schema :=
       {| tree__id := tree__id (the_schema s);
          methods := methods (the_schema s) ++ ["data"];
          statics := statics (the_schema s) ++ ["Patches"];
          virtuals := virtuals (the_schema s) ++ ["patches"];
          hooks := hooks (the_schema s) ++ installed_hooks;
          versionKey := versionKey (the_schema s);
          timestamps := timestamps (the_schema s);
          defaults := defaults (the_schema s) |};
     models :=
       models s
       ++ match prop opts "name" with
          | VStr (String c rest) =>
              [(String c rest, String (toLowerCase c) rest,
                patch_definitions (mergeOptions opts) (prop (tree__id (the_schema s)) "type"))]
          | _ => []
          end |}.

Section AttachNotions.
Context {factory : SchemaFactory}.

(** What attaching does once the four checks have passed. *)
Definition after_checks (opts : jsval) (s : Setup) : result unit * Setup :=
  let half := add_method "data" s in
  match prop opts "schema" with
  | VFun _ _ _ =>
      if well_formed
           (patch_definitions (mergeOptions opts) (prop (tree__id (the_schema s)) "type"))
      then
        match prop opts "name" with
        | VStr (String c rest) =>
            match prop (prop opts "mongoose") "model" with
            | VFun _ _ _ =>
                if registered (String c rest) s
                then (Throw (OverwriteModelError "Cannot overwrite model once compiled."), half)
                else (Ok tt, attached_setup opts s)
            | _ => (Throw (TypeError "options.mongoose.model is not a function"), half)
            end
        | _ => (Throw (TypeError "Cannot read property 'toLowerCase' of undefined"), half)
        end
      else (Throw (TypeError "Invalid schema configuration"), half)
  | _ => (Throw (TypeError "options.schema is not a constructor"), half)
  end.

End AttachNotions.

(** The payload [mergeQueryConditionsWithUpdate] copies from. *)
Definition update_payload (_update : jsval) : jsval :=
  if truthy _update then js_or (prop _update "$set") _update else _update.

(** A list with the positions of its elements, counted from [i]. *)
Fixpoint numbered {A : Type} (i : nat) (l : list A) : list (nat * A) :=
  match l with
  | [] => []
  | x :: rest => (i, x) :: numbered (S i) rest
  end.

(** The filters the post-phases build from recorded identities. *)
Definition by_identity (id : jsval) : jsval := VObj [("_id", VObj [("$eq", id)])].

Definition by_identities (ids : list jsval) : jsval := VObj [("_id", VObj [("$in", VArr ids)])].

Section Notions.
Context {engine : DiffEngine} {store : Store} {attached : Attached}.

(** The operations [createPatch] stores: the diff, annotated when
    original values are tracked. *)
Definition stored_ops (document : Document) : list entry :=
  if truthy (trackOriginalValue options)
  then map (track document) (diff document) else diff document.

Definition or_empty (queryOptions : option obj) : obj :=
  match queryOptions with Some o => o | None => [] end.

(** The value the plugin gives an included field: the document's, unless
    that is falsy, in which case the query option's. *)
Definition included_value (document : Document) (queryOptions : obj)
    (name : string) (type : jsval) : jsval :=
  let k := source_key type name in
  if truthy (doc_prop document k) then doc_prop document k
  else prop (VObj queryOptions) k.



(** The error the assembly of a record ends in, if an included field's
    definition is [null] or [undefined]. *)
Definition unreadable_include : option error := first_unreadable (own_props (includes options)).

(** The record assembled for a document when every included field's
    definition can be read: [ops], [ref] and, set one after the other, the
    included fields. *)
Definition record_of (document : Document) (queryOptions : obj) (ops : list entry) : Patch :=
  fold_left
    (fun data nt =>
       set_field (fst nt) (FVal (included_value document queryOptions (fst nt) (snd nt))) data)
    (own_props (includes options))
    [("ops", FOps ops); ("ref", FVal (Document._id document))].

(** A record the patch model accepts. *)
Definition accepted (p : Patch) : bool := validates patch_fields p.

(** The record [createPatch] has for the patch store, if it has one. *)
Definition patch_to_store (document : Document) (queryOptions : obj) : list Patch :=
  match diff document with
  | [] => []
  | _ :: _ => [record_of document queryOptions (stored_ops document)]
  end.

(** What becomes of the records a hook has for the patch store.  Where an
    included field's definition cannot be read, the first record is never
    assembled: the hook fails, nothing is stored.  Otherwise every record
    the patch model accepts is stored, in order, and the hook fails if
    one was rejected. *)
Definition handed_over (candidates : list Patch) (w : World) : result unit * World :=
  match candidates, unreadable_include with
  | _ :: _, Some e => (Throw e, w)
  | _, _ =>
      (if forallb accepted candidates then Ok tt
       else Throw (ValidationError "Validation failed"),
       {| rows := rows w; patches := patches w ++ filter accepted candidates |})
  end.

(** The state the original values are read from. *)
Definition before (document : Document) : jsval :=
  if Document.isNew document then VObj [] else Document._original document.


(** The before snapshot and the after state [createPatch] compares. *)
Definition before_snapshot (document : Document) : jsval :=
  if Document.isNew document then VObj []
  else if truthy (Document._original document) then Document._original document
       else VObj [].

Definition after_state (document : Document) : jsval := VObj (toJSON (data document)).

(** The claim C4 makes of one assembly, as the specification words it. *)
Definition persisted_iff_diff_nonempty (document : Document) (queryOptions : option obj)
    (w : World) : Prop :=
  (exists p, patches (snd (createPatch document queryOptions w)) = patches w ++ [p])
  <-> compare (before_snapshot document) (after_state document) <> [].


(** The document [findOne] resolves to in a given store. *)
Definition selected (conditions : jsval) (w : World) : option Document :=
  List.hd_error (map init (fetch conditions [] w)).

(** The claim C6 makes of one pre-phase, as the specification words it:
    the snapshot of the selected document, or the empty object. *)
Definition baseline_as_specified (this : Query) (w : World) : Prop :=
  exists this',
    preUpdateOne this w = (Ok this', w)
    /\ Query._original this'
       = match selected (Query._conditions this) w with
         | Some original => VObj (toJSON (data original))
         | None => VObj []
         end.

(** The store's part of an update-many: every row the filter selects is
    rewritten, nothing else moves. *)
Definition write_many (conditions : jsval) (write : Row -> Row) (w : World) : World :=
  {| rows := map (fun r => if matches conditions r then write r else r) (rows w);
     patches := patches w |}.

(** The JSON snapshot of a row as the pre-phase takes it. *)
Definition snapshot_of (r : Row) : jsval := VObj (toJSON (data (init r))).




(** A row the store's write really changed. *)
Definition modified (write : Row -> Row) (r : Row) : bool :=
  negb (jsval_eqb (row_id (write r)) (row_id r)
        && jsval_eqb (VObj (row_fields (write r))) (VObj (row_fields r))).




(** A re-fetched row with no baseline attached: [doc._original = undefined]. *)
Definition unanchored (r : Row) : Document :=
  Document.set__original VUndef (init r).

(** The records the post-phase of an update-many has for the patch store:
    one for each re-fetched document whose diff against the baseline at its
    position has an operation. *)
Definition paired (queryOptions : obj) (snaps : list jsval) (i : nat) (l : list Row)
  : list Patch :=
  flat_map
    (fun ir =>
       patch_to_store (Document.set__original (nth (fst ir) snaps VUndef) (init (snd ir)))
                      queryOptions)
    (numbered i l).

End Notions.

(** ** A diff engine, a store and a schema factory to run the hooks on *)

(** *** fast-json-patch's [compare]

    [_generate] walks the old value's keys from last to first (an array's
    keys are its indices): a key the new value has too is descended into
    when both values are objects or both are arrays, and replaced when the
    values differ; a key it has not is removed.  The new value's keys the
    old value has not are then added, unless nothing was removed and both
    have as many keys. *)

Definition is_undef (v : jsval) : bool := match v with VUndef => true | _ => false end.

Definition is_array (v : jsval) : bool := match v with VArr _ => true | _ => false end.

Definition is_container (v : jsval) : bool :=
  match v with VArr _ | VObj _ => true | _ => false end.

Definition entries_of (v : jsval) : obj :=
  match v with
  | VObj ps => ps
  | VArr items => indexed items 0
  | _ => []
  end.

(** [escapePathComponent]: [~] becomes [~0], [/] becomes [~1]. *)
Fixpoint escapePathComponent (s : string) : string :=
  match s with
  | EmptyString => ""
  | String c rest =>
      if Ascii.eqb c "~" then String "~" (String "0" (escapePathComponent rest))
      else if Ascii.eqb c "/" then String "~" (String "1" (escapePathComponent rest))
      else String c (escapePathComponent rest)
  end.

(** One old key: the operations it gives, and whether it was removed. *)
Definition visit (mirror obj : jsval) (path key : string) (oldVal : jsval)
    (descend : jsval -> string -> list entry) : list entry * bool :=
  let here := (path ++ "/" ++ escapePathComponent key)%string in
  let gone :=
    if Bool.eqb (is_array mirror) (is_array obj)
    then ([{| op := "remove"; path := here; value := VUndef; originalValue := None |}], true)
    else ([{| op := "replace"; path := path; value := obj; originalValue := None |}], false) in
  match lookup key (entries_of obj) with
  | Some newVal =>
      if is_undef newVal && negb (is_undef oldVal) && negb (is_array obj) then gone
      else if is_container oldVal && is_container newVal
              && Bool.eqb (is_array oldVal) (is_array newVal)
      then (descend newVal here, false)
      else if jsval_eqb oldVal newVal then ([], false)
      else ([{| op := "replace"; path := here; value := newVal; originalValue := None |}],
            false)
  | None => gone
  end.

Fixpoint generate (mirror obj : jsval) (path : string) {struct mirror} : list entry :=
  let chunks :=
    match mirror with
    | VObj old =>
        (fix walk (ps : list (string * jsval)) : list (list entry * bool) :=
           match ps with
           | [] => []
           | (k, oldVal) :: rest =>
               visit mirror obj path k oldVal (generate oldVal) :: walk rest
           end) old
    | VArr items =>
        (fix walk (xs : list jsval) (i : nat) : list (list entry * bool) :=
           match xs with
           | [] => []
           | oldVal :: rest =>
               visit mirror obj path (nat_key i) oldVal (generate oldVal) :: walk rest (S i)
           end) items 0%nat
    | _ => []
    end in
  List.concat (map fst (rev chunks))
  ++ (if negb (existsb snd chunks)
         && Nat.eqb (List.length (entries_of obj)) (List.length chunks)
      then []
      else
        flat_map
          (fun kv =>
             if has_key (fst kv) (entries_of mirror) || is_undef (snd kv) then []
             else [{| op := "add";
                      path := (path ++ "/" ++ escapePathComponent (fst kv))%string;
                      value := snd kv; originalValue := None |}])
          (entries_of obj)).

(** [compare (tree1, tree2)]; between equal values the walk finds nothing. *)
Definition jsonpatch_compare (a b : jsval) : list entry :=
  if jsval_eqb a b then [] else generate a b "".

Definition FastJsonPatch : DiffEngine := {| compare := jsonpatch_compare |}.

(** *** A store

    Filters are conjunctions of equalities on top-level fields, with [$eq]
    and [$in] as the only operators.  A query is answered in the order of
    its [sort] option when that names one field, in the order of the
    identities when it selects by [_id] with [$in] (the identity index is
    read), and in the collection's order otherwise.  The patch model
    rejects a record in which a required field without default is missing
    or [null]; it makes no other check. *)

Definition eq_matches (filter : jsval) (r : Row) : bool :=
  forallb
    (fun kv =>
       let actual := if String.eqb (fst kv) "_id" then row_id r
                     else prop (VObj (row_fields r)) (fst kv) in
       match snd kv with
       | VObj [("$eq", x)] => jsval_eqb actual x
       | VObj [("$in", VArr xs)] => existsb (jsval_eqb actual) xs
       | v => jsval_eqb actual v
       end)
    (own_props filter).

Definition row_value (k : string) (r : Row) : jsval :=
  if String.eqb k "_id" then row_id r else prop (VObj (row_fields r)) k.

Definition value_leb (a b : jsval) : bool :=
  match a, b with
  | VNum x, VNum y => Z.leb x y
  | VStr x, VStr y => String.leb x y
  | VOid x, VOid y => String.leb x y
  | _, _ => true
  end.

Fixpoint insert_by (le : Row -> Row -> bool) (r : Row) (l : list Row) : list Row :=
  match l with
  | [] => [r]
  | x :: rest => if le r x then r :: x :: rest else x :: insert_by le r rest
  end.

Definition sort_by (le : Row -> Row -> bool) (l : list Row) : list Row :=
  fold_right (insert_by le) [] l.

(** The field a query's results are ordered by, and whether ascending. *)
Definition order_of (conditions : jsval) (opts : obj) : option (string * bool) :=
  match prop (VObj opts) "sort" with
  | VObj [(k, VNum 1)] => Some (k, true)
  | VObj [(k, VNum (-1))] => Some (k, false)
  | _ =>
      match prop conditions "_id" with
      | VObj [("$in", _)] => Some ("_id", true)
      | _ => None
      end
  end.

Definition eq_arrange (conditions : jsval) (opts : obj) (l : list Row) : list Row :=
  match order_of conditions opts with
  | Some (k, true) => sort_by (fun a b => value_leb (row_value k a) (row_value k b)) l
  | Some (k, false) => sort_by (fun a b => value_leb (row_value k b) (row_value k a)) l
  | None => l
  end.

Definition required_present (definitions : obj) (p : Patch) : bool :=
  forallb
    (fun nd =>
       negb (truthy (prop (snd nd) "required"))
       || negb (is_undef (prop (snd nd) "default"))
       || match field_of (fst nd) p with
          | Some (FOps _) => true
          | Some (FVal VUndef) | Some (FVal VNull) | None => false
          | Some (FVal _) => true
          end)
    definitions.

Definition EqStore : Store.
Proof.
  refine {| matches := eq_matches; arrange := eq_arrange; validates := required_present;
            new_id := VOid "5f0000000000000000000000" |}.
  - assert (forall le r l, Permutation (insert_by le r l) (r :: l)) as Hinsert.
    { intros le r l. induction l as [| x l IH]; simpl; [apply Permutation_refl|].
      destruct (le r x); [apply Permutation_refl|].
      apply Permutation_trans with (x :: r :: l); [now apply perm_skip | apply perm_swap]. }
    assert (forall le l, Permutation (sort_by le l) l) as Hsort.
    { intros le l. induction l as [| x l IH]; simpl; [apply perm_nil|].
      apply Permutation_trans with (x :: sort_by le l); [apply Hinsert | now apply perm_skip]. }
    intros conditions opts rs. unfold eq_arrange.
    destruct (order_of conditions opts) as [[k []] |];
      [apply Hsort | apply Hsort | apply Permutation_refl].
  - intros id r. unfold eq_matches. simpl. apply andb_true_r.
  - intros ids r. unfold eq_matches. simpl. apply andb_true_r.
Defined.

(** A schema factory that takes every definition, and one that takes none
    in which a field has a [type] property holding [null]. *)
Definition AnySchema : SchemaFactory := {| well_formed := fun _ => true |}.

Definition TypedSchema : SchemaFactory :=
  {| well_formed :=
       forallb (fun nd => negb (has_key "type" (own_props (snd nd))
                                && jsval_eqb (prop (snd nd) "type") VNull)) |}.

(** *** Built-in constructors *)

(** [Array]: its statics are not enumerable. *)
Definition JS_Array : jsval :=
  VFun "function Array() { [native code] }" []
       [("isArray", builtin "isArray"); ("from", builtin "from"); ("of", builtin "of")].

(** node's [Buffer]: its statics are enumerable (some of them). *)
Definition JS_Buffer : jsval :=
  VFun "function Buffer() { [native code] }"
       [("poolSize", VNum 8192); ("from", builtin "from"); ("alloc", builtin "alloc");
        ("isBuffer", builtin "isBuffer"); ("concat", builtin "concat")]
       [].

(** *** Schemas and attachments *)

(** A schema with no timestamps and no defaults, the version key [__v]. *)
Definition plain_schema : Schema :=
  {| tree__id := VObj [("auto", VBool true); ("type", builtin "ObjectId")];
     methods := []; statics := []; virtuals := []; hooks := [];
     versionKey := VStr "__v"; timestamps := VUndef; defaults := [] |}.

Definition connector : jsval := VObj [("model", builtin "model")].

Definition attach (opts : obj) (s : Schema) : Attached :=
  {| options := mergeOptions (VObj ([("mongoose", connector); ("name", VStr "PostPatches");
                                     ("schema", builtin "Schema")] ++ opts));
     host := s |}.

Definition defaults_only : Attached := attach [] plain_schema.


Definition with_user : Attached :=
  attach [("includes",
           VObj [("user", VObj [("type", builtin "ObjectId"); ("from", VStr "_user")])])]
         plain_schema.

(** The README's included field: required, read from a virtual. *)
Definition requiring_user : Attached :=
  attach [("includes",
           VObj [("user", VObj [("type", builtin "ObjectId"); ("required", VBool true);
                                ("from", VStr "_user")])])]
         plain_schema.

(** An included field given as a bare constructor, and one given as [null]. *)
Definition tagging : Attached := attach [("includes", VObj [("tags", JS_Array)])] plain_schema.

Definition null_include : Attached := attach [("includes", VObj [("tags", VNull)])] plain_schema.

(** Included fields [title] and [7], as JavaScript enumerates them. *)
Definition numbered_include : Attached :=
  attach [("includes", VObj [("7", VObj [("type", builtin "Number")]);
                             ("title", VObj [("type", builtin "String")])])]
         plain_schema.

Definition ref_included : Attached :=
  attach [("includes", VObj [("ref", VObj [("type", builtin "String")])])] plain_schema.

Definition tracking : Attached :=
  attach [("trackOriginalValue", VBool true)] plain_schema.

Definition keeping_patches : Attached :=
  attach [("removePatches", VBool false)] plain_schema.

(** The README's [Post] schema: [comments: Array], which mongoose fills
    with the empty array. *)
Definition post_schema : Schema :=
  {| tree__id := VObj [("auto", VBool true); ("type", builtin "ObjectId")];
     methods := []; statics := []; virtuals := []; hooks := [];
     versionKey := VStr "__v"; timestamps := VUndef;
     defaults := [("comments", VArr [])] |}.

Definition on_posts : Attached := attach [] post_schema.



Definition fresh_setup : Setup := {| the_schema := plain_schema; models := [] |}.

Definition bare_opts : jsval :=
  VObj [("mongoose", connector); ("name", VStr "PostPatches"); ("schema", builtin "Schema")].

Definition opts_without_factory : jsval :=
  VObj [("mongoose", connector); ("name", VStr "PostPatches")].

(** *** Documents, queries, results and stores for the scenarios *)

Definition query (conditions update : jsval) (opts : obj) : Query :=
  {| Query._conditions := conditions; Query._update := update; Query.options := opts;
     Query._original := VUndef; Query._originalId := VUndef;
     Query._originalIds := None; Query._originals := None |}.

(** The result mongoose 6 hands to the post hook of an update that
    upserted nothing. *)
Definition update_result (matched modified : Z) : jsval :=
  VObj [("acknowledged", VBool true); ("modifiedCount", VNum modified);
        ("upsertedId", VNull); ("upsertedCount", VNum 0); ("matchedCount", VNum matched)].

Definition new_post : Document :=
  {| Document._id := VOid "a1"; Document.isNew := true; Document._original := VUndef;
     Document.fields := [("title", VStr "A"); ("count", VNum 0)];
     Document.locals := [("_user", VOid "c3")] |}.

Definition loaded_post : Document :=
  {| Document._id := VOid "a1"; Document.isNew := false;
     Document._original := VObj [("title", VStr "A")];
     Document.fields := [("title", VStr "B"); ("tags", VArr [VStr "x"]); ("__v", VNum 0)];
     Document.locals := [] |}.

Definition patch_for (ref : jsval) : Patch :=
  [("ops", FOps [{| op := "add"; path := "/title"; value := VStr "A";
                    originalValue := None |}]);
   ("ref", FVal ref)].

Definition nothing_stored : World := {| rows := []; patches := [] |}.

(** An upsert by update-one: nobody is named "x" before the write; the
    store then holds a new document next to an older one that has the
    same title. *)
Definition titled_b : Row :=
  {| row_id := VOid "b2"; row_fields := [("name", VStr "y"); ("title", VStr "B")] |}.

Definition upserted : Row :=
  {| row_id := VOid "c3"; row_fields := [("name", VStr "x"); ("title", VStr "B")] |}.

Definition upsert_x : Query :=
  query (VObj [("name", VStr "x")]) (VObj [("$set", VObj [("title", VStr "B")])])
        [("upsert", VBool true)].

Definition before_upsert : World := {| rows := [titled_b]; patches := [] |}.

Definition after_upsert : World := {| rows := [titled_b; upserted]; patches := [] |}.

Definition upsert_result : jsval :=
  VObj [("acknowledged", VBool true); ("modifiedCount", VNum 0);
        ("upsertedId", VOid "c3"); ("upsertedCount", VNum 1); ("matchedCount", VNum 0)].

Definition two_adds : list entry :=
  [{| op := "add"; path := "/title"; value := VStr "A"; originalValue := None |};
   {| op := "add"; path := "/count"; value := VNum 0; originalValue := None |}].

Definition user_patch : Patch :=
  [("ops", FOps two_adds); ("ref", FVal (VOid "a1")); ("user", FVal (VOid "c3"))].

Definition custom_ref_patch : Patch :=
  [("ops", FOps two_adds); ("ref", FVal (VStr "custom"))].

Definition tracked_patch : Patch :=
  [("ops",
    FOps [{| op := "replace"; path := "/title"; value := VStr "B";
             originalValue := Some (VStr "A") |};
          {| op := "add"; path := "/tags"; value := VArr [VStr "x"];
             originalValue := Some VUndef |}]);
   ("ref", FVal (VOid "a1"))].





Definition post_a : Row := {| row_id := VOid "a1"; row_fields := [("title", VStr "A")] |}.
Definition post_b : Row := {| row_id := VOid "b2"; row_fields := [("title", VStr "B")] |}.

Definition two_posts : World :=
  {| rows := [post_a; post_b];
     patches := [patch_for (VOid "a1"); patch_for (VOid "b2"); patch_for (VOid "a1")] |}.

Definition retitle : Query :=
  query (VObj [("name", VStr "x")]) (VObj [("title", VStr "B")]) [].

Definition only_b : World := {| rows := [post_b]; patches := [] |}.

(** [updateOne ({ name: "x" }, { $set: { title: "B" } })], and what its
    pre-phase leaves on the query on [only_b], as an update-one, as an
    update-many and as a legacy [update] with and without [multi]. *)
Definition set_title (opts : obj) : Query :=
  query (VObj [("name", VStr "x")]) (VObj [("$set", VObj [("title", VStr "B")])]) opts.

Definition set_title_after_pre : Query := Query.set__original (VObj []) (set_title []).

Definition set_title_many_after_pre : Query := Query.set_originals [] [] (set_title []).

Definition legacy_after_pre (multi : bool) : Query :=
  if multi then Query.set_originals [] [] (set_title [("multi", VBool true)])
  else Query.set__original (VObj []) (set_title [("multi", VBool false)]).

Definition spurious_patch : Patch :=
  [("ops", FOps [{| op := "add"; path := "/title"; value := VStr "B";
                    originalValue := None |}]);
   ("ref", FVal (VOid "b2"))].





Definition post_c : Row :=
  {| row_id := VOid "c3"; row_fields := [("title", VStr "C"); ("kind", VStr "page")] |}.
Definition news_a : Row :=
  {| row_id := VOid "a1"; row_fields := [("title", VStr "A"); ("kind", VStr "news")] |}.
Definition news_b : Row :=
  {| row_id := VOid "b2"; row_fields := [("title", VStr "B"); ("kind", VStr "news")] |}.


Definition set_title_B (r : Row) : Row :=
  {| row_id := row_id r; row_fields := set_prop "title" (VStr "B") (row_fields r) |}.

Definition retitle_news : Query :=
  query (VObj [("kind", VStr "news")]) (VObj [("title", VStr "B")]) [].

Definition retitle_a : Query :=
  query (VObj [("title", VStr "A")]) (VObj [("title", VStr "B")]) [].

Definition after_retitle : World :=
  {| rows := [set_title_B post_a; post_b]; patches := [] |}.

(** The query object after the pre-phase of [retitle_news] on
    [three_posts], and the store once the first selected document has been
    deleted by someone else. *)
Definition retitle_news_after_pre : Query :=
  Query.set_originals
    [VOid "a1"; VOid "b2"]
    [VObj [("title", VStr "A"); ("kind", VStr "news")];
     VObj [("title", VStr "B"); ("kind", VStr "news")]]
    retitle_news.

Definition first_news_gone : World := {| rows := [post_c; news_b]; patches := [] |}.

(** Two news posts of which the one with the greater identity was
    inserted first, and an update-many that sets a flag on both. *)
Definition late_a : World := {| rows := [news_b; news_a]; patches := [] |}.

Definition flag (r : Row) : Row :=
  {| row_id := row_id r; row_fields := set_prop "seen" (VBool true) (row_fields r) |}.

Definition flag_news : Query :=
  query (VObj [("kind", VStr "news")]) (VObj [("$set", VObj [("seen", VBool true)])]) [].

(** Two news posts with one patch each, and the removal of the one that
    comes last by title. *)
Definition two_news : World :=
  {| rows := [news_a; news_b];
     patches := [patch_for (VOid "a1"); patch_for (VOid "b2")] |}.

Definition remove_last_news : Query :=
  query (VObj [("kind", VStr "news")]) VUndef [("sort", VObj [("title", VNum (-1))])].

(** * Properties *)

(** ** Values *)

Lemma props_eqb_eq (eqb : jsval -> jsval -> bool) (ps : list (string * jsval)) :
  Forall (fun kv => forall b, eqb (snd kv) b = true <-> snd kv = b) ps ->
  forall qs,
    (fix props_eqb (ps qs : list (string * jsval)) {struct ps} : bool :=
       match ps, qs with
       | [], [] => true
       | (k, x) :: ps', (l, y) :: qs' => String.eqb k l && eqb x y && props_eqb ps' qs'
       | _, _ => false
       end) ps qs = true
    <-> ps = qs.
Proof.
  induction 1 as [| [k x] ps Hx _ IH]; intros [| [l y] qs].
  - tauto.
  - split; discriminate.
  - split; discriminate.
  - simpl in Hx. rewrite !andb_true_iff, Hx, String.eqb_eq, IH.
    split.
    + intros [[-> ->] ->]. reflexivity.
    + intros E. injection E as -> -> ->. repeat split.
Qed.

Lemma items_eqb_eq (eqb : jsval -> jsval -> bool) (xs : list jsval) :
  Forall (fun x => forall b, eqb x b = true <-> x = b) xs ->
  forall ys,
    (fix items_eqb (xs ys : list jsval) {struct xs} : bool :=
       match xs, ys with
       | [], [] => true
       | x :: xs', y :: ys' => eqb x y && items_eqb xs' ys'
       | _, _ => false
       end) xs ys = true
    <-> xs = ys.
Proof.
  induction 1 as [| x xs Hx _ IH]; intros [| y ys].
  - tauto.
  - split; discriminate.
  - split; discriminate.
  - rewrite andb_true_iff, Hx, IH. split.
    + intros [-> ->]. reflexivity.
    + intros E. injection E as -> ->. split; reflexivity.
Qed.

Lemma jsval_eqb_eq (a b : jsval) : jsval_eqb a b = true <-> a = b.
Proof.
  revert b. induction a using jsval_deep_ind; intros [] ; simpl;
    try (split; [discriminate | discriminate]); try tauto.
  - rewrite Bool.eqb_true_iff. split; congruence.
  - rewrite Z.eqb_eq. split; congruence.
  - rewrite String.eqb_eq. split; congruence.
  - rewrite String.eqb_eq. split; congruence.
  - rewrite !andb_true_iff, String.eqb_eq.
    rewrite (props_eqb_eq jsval_eqb props H), (props_eqb_eq jsval_eqb hidden H0).
    split; [intros [[-> ->] ->]; reflexivity | intros E; injection E as -> -> ->; repeat split].
  - rewrite (items_eqb_eq jsval_eqb items H). split; congruence.
  - rewrite (props_eqb_eq jsval_eqb props H). split; congruence.
Qed.

Lemma jsval_eqb_refl (a : jsval) : jsval_eqb a a = true.
Proof. now apply jsval_eqb_eq. Qed.


(** The scenarios' diff engine finds nothing between a value and itself. *)
Lemma jsonpatch_compare_same (a : jsval) : jsonpatch_compare a a = [].
Proof. unfold jsonpatch_compare. now rewrite jsval_eqb_refl. Qed.

(** ** Property lists *)

Section PropertyListFacts.
Context {A : Type}.
Implicit Types (o : list (string * A)) (k : string) (v : A).

Lemma assoc_has_keys k o : assoc_has k o = true <-> In k (map fst o).
Proof.
  unfold assoc_has. induction o as [| [k' v] o IH]; simpl.
  - split; [discriminate | contradiction].
  - destruct (String.eqb k k') eqn:E.
    + apply String.eqb_eq in E. subst. split; auto.
    + apply String.eqb_neq in E. rewrite IH. split; [auto | intros [E' | Hin]; congruence].
Qed.

Lemma assoc_has_false k o : assoc_has k o = false <-> ~ In k (map fst o).
Proof.
  rewrite <- assoc_has_keys. destruct (assoc_has k o); split; congruence.
Qed.

Lemma assoc_get_replace_same k v o :
  assoc_has k o = true -> assoc_get k (assoc_replace k v o) = Some v.
Proof.
  unfold assoc_has. induction o as [| [k' v'] o IH]; simpl; [discriminate|].
  destruct (String.eqb k k') eqn:E; simpl.
  - now rewrite String.eqb_refl.
  - now rewrite E.
Qed.

Lemma assoc_get_replace_other k k' v o :
  k <> k' -> assoc_get k (assoc_replace k' v o) = assoc_get k o.
Proof.
  intros Hne. apply String.eqb_neq in Hne.
  induction o as [| [k0 v0] o IH]; simpl; [reflexivity|].
  destruct (String.eqb k' k0) eqn:E; simpl.
  - apply String.eqb_eq in E. subst k0. now rewrite Hne.
  - now rewrite IH.
Qed.

Lemma assoc_get_insert_same n k v o :
  assoc_has k o = false -> assoc_get k (assoc_insert_index n k v o) = Some v.
Proof.
  unfold assoc_has. induction o as [| [k' v'] o IH]; simpl.
  - now rewrite String.eqb_refl.
  - destruct (String.eqb k k') eqn:E; [discriminate|]. intros Hnot.
    destruct (array_index k') as [m |]; [destruct (m <? n)%N|]; simpl;
      rewrite ?String.eqb_refl, ?E; auto.
Qed.

Lemma assoc_get_insert_other n k k' v o :
  k <> k' -> assoc_get k (assoc_insert_index n k' v o) = assoc_get k o.
Proof.
  intros Hne. apply String.eqb_neq in Hne.
  induction o as [| [k0 v0] o IH]; simpl.
  - now rewrite Hne.
  - destruct (array_index k0) as [m |]; [destruct (m <? n)%N|]; simpl;
      rewrite ?Hne, ?IH; reflexivity.
Qed.

Lemma assoc_get_append k k' v o :
  assoc_get k (o ++ [(k', v)])
  = match assoc_get k o with
    | Some x => Some x
    | None => if String.eqb k k' then Some v else None
    end.
Proof.
  induction o as [| [k0 v0] o IH]; simpl; [reflexivity|].
  destruct (String.eqb k k0); [reflexivity | exact IH].
Qed.

Lemma assoc_get_set_same k v o : assoc_get k (assoc_set k v o) = Some v.
Proof.
  unfold assoc_set. destruct (assoc_has k o) eqn:E.
  - now apply assoc_get_replace_same.
  - destruct (array_index k) as [n |].
    + now apply assoc_get_insert_same.
    + rewrite assoc_get_append. unfold assoc_has in E.
      destruct (assoc_get k o); [discriminate|]. now rewrite String.eqb_refl.
Qed.

Lemma assoc_get_set_other k k' v o : k <> k' -> assoc_get k (assoc_set k' v o) = assoc_get k o.
Proof.
  intros Hne. unfold assoc_set. destruct (assoc_has k' o).
  - now apply assoc_get_replace_other.
  - destruct (array_index k') as [n |].
    + now apply assoc_get_insert_other.
    + rewrite assoc_get_append. destruct (assoc_get k o); [reflexivity|].
      apply String.eqb_neq in Hne. now rewrite Hne.
Qed.

Lemma assoc_replace_entries k v o kv :
  In kv (assoc_replace k v o) -> kv = (k, v) \/ In kv o.
Proof.
  induction o as [| [k' v'] o IH]; simpl; [tauto|].
  destruct (String.eqb k k'); simpl.
  - intros [<- | Hin]; [now left | right; now right].
  - intros [<- | Hin]; [right; now left|].
    destruct (IH Hin) as [-> | Hin']; [now left | right; now right].
Qed.

Lemma assoc_insert_entries n k v o kv :
  In kv (assoc_insert_index n k v o) -> kv = (k, v) \/ In kv o.
Proof.
  induction o as [| [k' v'] o IH]; simpl.
  - intros [<- | []]. now left.
  - destruct (array_index k') as [m |]; [destruct (m <? n)%N|]; simpl.
    + intros [<- | Hin]; [right; now left|].
      destruct (IH Hin) as [-> | Hin']; [now left | right; now right].
    + intros [<- | Hin]; [now left | now right].
    + intros [<- | Hin]; [now left | now right].
Qed.

Lemma assoc_set_entries k v o kv : In kv (assoc_set k v o) -> kv = (k, v) \/ In kv o.
Proof.
  unfold assoc_set. destruct (assoc_has k o).
  - apply assoc_replace_entries.
  - destruct (array_index k) as [n |].
    + apply assoc_insert_entries.
    + intros Hin. apply in_app_or in Hin. destruct Hin as [Hin | [<- | []]]; auto.
Qed.

(** A new name that is not an array index goes last. *)
Lemma assoc_set_new_key k v o :
  ~ In k (map fst o) -> array_index k = None ->
  map fst (assoc_set k v o) = map fst o ++ [k].
Proof.
  intros Hnew Hplain. unfold assoc_set.
  apply assoc_has_false in Hnew. rewrite Hnew, Hplain.
  now rewrite map_app.
Qed.

End PropertyListFacts.

(** ** The merged filter *)

Lemma delete_prop_filter (k : string) (f : string * jsval -> bool) (o : obj) :
  delete_prop k (filter f o) = filter (fun kv => f kv && negb (String.eqb k (fst kv))) o.
Proof.
  unfold delete_prop. induction o as [| kv o IH]; simpl; [reflexivity|].
  destruct (f kv); simpl; [|exact IH].
  destruct (String.eqb k (fst kv)); simpl; now rewrite IH.
Qed.

Lemma strip_fold (ks : list string) (f : string * jsval -> bool) (o : obj) :
  fold_left
    (fun conditions key =>
       if String_includes "$"%char key then delete_prop key conditions else conditions)
    ks (filter f o)
  = filter
      (fun kv =>
         f kv && negb (operator_key kv && existsb (fun k => String.eqb k (fst kv)) ks))
      o.
Proof.
  revert f. induction ks as [| k ks IH]; intros f; simpl.
  - apply filter_ext. intros kv. now rewrite andb_false_r, andb_true_r.
  - destruct (String_includes "$"%char k) eqn:E.
    + rewrite delete_prop_filter, IH. apply filter_ext. intros [k' v]. unfold operator_key. simpl.
      destruct (f (k', v)); simpl; [|reflexivity].
      destruct (String.eqb k k') eqn:Ek; simpl.
      * apply String.eqb_eq in Ek. subst k'. now rewrite E.
      * reflexivity.
    + rewrite IH. apply filter_ext. intros [k' v]. unfold operator_key. simpl.
      destruct (String.eqb k k') eqn:Ek; simpl; [|reflexivity].
      apply String.eqb_eq in Ek. subst k'. now rewrite E.
Qed.

Lemma strip_keys (o : obj) :
  fold_left
    (fun conditions key =>
       if String_includes "$"%char key then delete_prop key conditions else conditions)
    (keys o) o
  = filter (fun kv => negb (operator_key kv)) o.
Proof.
  assert (filter (fun _ => true) o = o) as Hall
    by (apply forallb_filter_id, forallb_forall; reflexivity).
  pose proof (strip_fold (keys o) (fun _ => true) o) as E.
  rewrite Hall in E. rewrite E. clear E Hall. apply filter_ext_in. intros [k v] Hin. simpl.
  assert (existsb (fun k0 => String.eqb k0 k) (keys o) = true) as ->.
  { apply existsb_exists. exists k. split; [|apply String.eqb_refl].
    unfold keys. now apply (in_map fst) in Hin. }
  now rewrite andb_true_r.
Qed.

(** What the compiled function computes: the specified filter of an
    absent query, whatever the query conditions are. *)
Lemma mergeQueryConditionsWithUpdate_spec_without_conditions (_conditions _update : jsval) :
  mergeQueryConditionsWithUpdate _conditions _update = merged_filter_spec VUndef _update.
Proof.
  unfold mergeQueryConditionsWithUpdate, merged_filter_spec.
  apply strip_keys.
Qed.

(** ** The hook monad *)

Lemma bind_gets (S A B : Type) (f : S -> A) (k : A -> M S B) (s : S) :
  bind (gets f) k s = k (f s) s.
Proof. reflexivity. Qed.

Lemma bind_ret (S A B : Type) (a : A) (k : A -> M S B) (s : S) :
  bind (ret a) k s = k a s.
Proof. reflexivity. Qed.

Lemma bind_modify (S B : Type) (f : S -> S) (k : unit -> M S B) (s : S) :
  bind (modify f) k s = k tt (f s).
Proof. reflexivity. Qed.

Lemma bind_assert (S B : Type) (msg : string) (k : unit -> M S B) (s : S) :
  bind (assert true msg) k s = k tt s.
Proof. reflexivity. Qed.

Lemma bind_throw (S A B : Type) (e : error) (k : A -> M S B) (s : S) :
  bind (throw e) k s = (Throw e, s).
Proof. reflexivity. Qed.

Lemma modify_run (S : Type) (f : S -> S) (s : S) : modify f s = (Ok tt, f s).
Proof. reflexivity. Qed.

Lemma world_with_nothing_added (w : World) :
  {| rows := rows w; patches := patches w ++ [] |} = w.
Proof. destruct w. cbn. now rewrite app_nil_r. Qed.

Lemma filter_nothing (A : Type) (f : A -> bool) (l : list A) :
  (forall x, In x l -> f x = false) -> filter f l = [].
Proof.
  induction l as [| x l IH]; intros Hf; simpl; [reflexivity|].
  rewrite (Hf x) by now left. apply IH. intros y Hy. apply Hf. now right.
Qed.



Lemma filter_after_filter (A : Type) (f g : A -> bool) (l : list A) :
  filter f (filter g l) = filter (fun x => g x && f x) l.
Proof.
  induction l as [| x l IH]; simpl; [reflexivity|].
  destruct (g x); simpl; [destruct (f x); now rewrite IH | exact IH].
Qed.

(** ** Included fields and the assembled record *)

Lemma has_key_keys (k : string) (o : obj) : has_key k o = true <-> In k (keys o).
Proof. apply assoc_has_keys. Qed.

Lemma field_of_set_same (k : string) (f : field) (p : Patch) :
  field_of k (set_field k f p) = Some f.
Proof. apply assoc_get_set_same. Qed.

Lemma field_of_set_other (k k' : string) (f : field) (p : Patch) :
  k <> k' -> field_of k (set_field k' f p) = field_of k p.
Proof. apply assoc_get_set_other. Qed.

Lemma lookup_set_same (k : string) (v : jsval) (o : obj) : lookup k (set_prop k v o) = Some v.
Proof. apply assoc_get_set_same. Qed.

Lemma lookup_set_other (k k' : string) (v : jsval) (o : obj) :
  k <> k' -> lookup k (set_prop k' v o) = lookup k o.
Proof. apply assoc_get_set_other. Qed.

Section Assembly.
Variable g : string * jsval -> field.

Lemma field_of_fold_absent (k : string) (l : obj) (acc : Patch) :
  ~ In k (keys l) ->
  field_of k (fold_left (fun data nt => set_field (fst nt) (g nt) data) l acc)
  = field_of k acc.
Proof.
  revert acc. induction l as [| [k' v] l IH]; intros acc Hnot; simpl; [reflexivity|].
  rewrite IH.
  - apply field_of_set_other. intros ->. apply Hnot. now left.
  - intros Hin. apply Hnot. now right.
Qed.

Lemma field_of_fold_present (k : string) (v : jsval) (l : obj) (acc : Patch) :
  NoDup (keys l) -> In (k, v) l ->
  field_of k (fold_left (fun data nt => set_field (fst nt) (g nt) data) l acc)
  = Some (g (k, v)).
Proof.
  revert acc. induction l as [| [k' v'] l IH]; intros acc Hnd Hin; simpl; [contradiction|].
  inversion Hnd as [| ? ? Hnotin Hnd']; subst.
  destruct Hin as [E | Hin].
  - injection E as -> ->.
    rewrite field_of_fold_absent by exact Hnotin.
    simpl. apply field_of_set_same.
  - now apply IH.
Qed.

Lemma field_of_fold_fval (k : string) (l : obj) (acc : Patch) :
  (forall nt, exists v, g nt = FVal v) ->
  In k (keys l) ->
  exists v,
    field_of k (fold_left (fun data nt => set_field (fst nt) (g nt) data) l acc)
    = Some (FVal v).
Proof.
  intros Hg. revert acc. induction l as [| [k' v'] l IH]; intros acc Hin; simpl; [contradiction|].
  destruct (in_dec string_dec k (keys l)) as [Hl | Hl].
  - now apply IH.
  - destruct Hin as [E | Hin]; [|contradiction].
    simpl in E. subst k'.
    rewrite field_of_fold_absent by exact Hl.
    simpl. rewrite field_of_set_same. destruct (Hg (k, v')) as [v ->]. now exists v.
Qed.

Lemma fold_set_field_keys (l : obj) (acc : Patch) :
  NoDup (keys l) ->
  Forall (fun k => array_index k = None) (keys l) ->
  (forall k, In k (keys l) -> ~ In k (map fst acc)) ->
  map fst (fold_left (fun data nt => set_field (fst nt) (g nt) data) l acc) = map fst acc ++ keys l.
Proof.
  revert acc. induction l as [| [k v] l IH]; intros acc Hnd Hplain Hfresh; simpl.
  - now rewrite app_nil_r.
  - inversion Hnd as [| ? ? Hnotin Hnd']; subst.
    inversion Hplain as [| ? ? Hk Hplain']; subst. cbn [fst] in Hk.
    assert (map fst (set_field k (g (k, v)) acc) = map fst acc ++ [k]) as Hstep.
    { unfold set_field. apply assoc_set_new_key; [|exact Hk].
      apply Hfresh. now left. }
    rewrite IH; [| exact Hnd' | exact Hplain' |].
    + rewrite Hstep. now rewrite <- app_assoc.
    + intros k' Hin'. rewrite Hstep.
      intros Hin. apply in_app_or in Hin. destruct Hin as [Hin | [-> | []]].
      * apply (Hfresh k'); [now right | exact Hin].
      * contradiction.
Qed.

End Assembly.

Section Properties.
Context {engine : DiffEngine} {store : Store} {attached : Attached}.

(** *** Queries *)

Lemma fetch_members (conditions : jsval) (opts : obj) (w : World) (x : Row) :
  In x (fetch conditions opts w) <-> In x (rows w) /\ matches conditions x = true.
Proof.
  unfold fetch. rewrite <- filter_In. split; apply Permutation_in.
  - apply arrange_permutes.
  - apply Permutation_sym, arrange_permutes.
Qed.

Lemma fetch_nothing (conditions : jsval) (opts : obj) (w : World) :
  filter (matches conditions) (rows w) = [] -> fetch conditions opts w = [].
Proof.
  intros Hnone. unfold fetch. rewrite Hnone.
  apply Permutation_nil, Permutation_sym, arrange_permutes.
Qed.

Lemma findOne_run (conditions : jsval) (w : World) :
  findOne conditions w = (Ok (selected conditions w), w).
Proof. reflexivity. Qed.

(** *** Patch assembly *)

Lemma include_key_readable (type : jsval) (name : string) :
  type <> VUndef -> type <> VNull -> include_key type name = Ok (source_key type name).
Proof.
  intros Hu Hn. unfold include_key, source_key, js_or.
  destruct type; try congruence; destruct (truthy _); reflexivity.
Qed.

Lemma each_include (document : Document) (queryOptions : obj) (l : obj) (acc : Patch) :
  each
    (fun data nt =>
       match include_key (snd nt) (fst nt) with
       | Ok k =>
           Ok (set_field (fst nt)
                 (FVal (js_or (doc_prop document k) (prop (VObj queryOptions) k))) data)
       | Throw e => Throw e
       end)
    l acc
  = match first_unreadable l with
    | Some e => Throw e
    | None =>
        Ok (fold_left
              (fun data nt =>
                 set_field (fst nt)
                   (FVal (included_value document queryOptions (fst nt) (snd nt))) data)
              l acc)
    end.
Proof.
  revert acc. induction l as [| [name type] l IH]; intros acc; [reflexivity|].
  cbn [each fst snd first_unreadable].
  destruct type; try reflexivity;
    (rewrite include_key_readable by discriminate; rewrite IH; reflexivity).
Qed.

Lemma assemble_run (document : Document) (queryOptions : obj) (ops : list entry) :
  assemble document queryOptions ops
  = match unreadable_include with
    | Some e => Throw e
    | None => Ok (record_of document queryOptions ops)
    end.
Proof. unfold assemble, unreadable_include, record_of. apply each_include. Qed.

Lemma createPatch_run (document : Document) (queryOptions : option obj) (w : World) :
  createPatch document queryOptions w
  = match diff document with
    | [] => (Ok Resolved, w)
    | _ :: _ =>
        match unreadable_include with
        | Some e => (Throw e, w)
        | None =>
            if accepted (record_of document (or_empty queryOptions) (stored_ops document))
            then (Ok Resolved,
                  {| rows := rows w;
                     patches := patches w
                                ++ [record_of document (or_empty queryOptions)
                                      (stored_ops document)] |})
            else (Ok (Rejected (ValidationError "Validation failed")), w)
        end
    end.
Proof.
  unfold createPatch, stored_ops, accepted.
  fold (or_empty queryOptions).
  destruct (diff document) as [| e ops]; [reflexivity|].
  cbn [List.length Nat.eqb]. unfold bind, lift. rewrite assemble_run.
  destruct unreadable_include; [reflexivity|].
  unfold Patches_create.
  destruct (validates patch_fields _); reflexivity.
Qed.

(** [createPatch] followed by [.then (() => next ()).catch (next)]. *)
Lemma created_and_settled (document : Document) (queryOptions : option obj) (w : World) :
  bind (createPatch document queryOptions) settle w
  = handed_over (patch_to_store document (or_empty queryOptions)) w.
Proof.
  unfold bind. rewrite createPatch_run. unfold patch_to_store, handed_over.
  destruct (diff document) as [| e ops].
  - cbn. now rewrite world_with_nothing_added.
  - destruct unreadable_include; [reflexivity|].
    cbn [forallb filter].
    destruct (accepted _); cbn; [reflexivity|].
    now rewrite world_with_nothing_added.
Qed.

Lemma handed_over_accepted (candidates : list Patch) (w : World) :
  unreadable_include = None ->
  forallb accepted candidates = true ->
  handed_over candidates w
  = (Ok tt, {| rows := rows w; patches := patches w ++ candidates |}).
Proof.
  intros Hread Hall. unfold handed_over. rewrite Hread, Hall.
  rewrite (forallb_filter_id _ _ Hall). now destruct candidates.
Qed.

Lemma appended_patch (document : Document) (queryOptions : option obj) (w : World) (p : Patch) :
  patches (snd (createPatch document queryOptions w)) = patches w ++ [p] ->
  diff document <> []
  /\ unreadable_include = None
  /\ p = record_of document (or_empty queryOptions) (stored_ops document)
  /\ accepted p = true.
Proof.
  rewrite createPatch_run.
  assert (patches w <> patches w ++ [p]) as Hgrows.
  { intros E. apply (f_equal (@List.length Patch)) in E.
    rewrite length_app in E. simpl in E. lia. }
  destruct (diff document) as [| e ops]; [intros E; now elim Hgrows|].
  destruct unreadable_include; [intros E; now elim Hgrows|].
  destruct (accepted _) eqn:Ea; cbn [snd patches]; [|intros E; now elim Hgrows].
  intros E. apply app_inv_head in E. injection E as <-.
  repeat split; [discriminate | exact Ea].
Qed.

Lemma record_of_included (document : Document) (queryOptions : obj) (ops : list entry)
    (name : string) (type : jsval) :
  NoDup (keys (own_props (includes options))) ->
  In (name, type) (own_props (includes options)) ->
  field_of name (record_of document queryOptions ops)
  = Some (FVal (included_value document queryOptions name type)).
Proof.
  intros Hnd Hin. unfold record_of.
  exact (field_of_fold_present
           (fun nt => FVal (included_value document queryOptions (fst nt) (snd nt)))
           name type _ _ Hnd Hin).
Qed.

Lemma patch_ops_record (document : Document) (queryOptions : obj) (ops : list entry) :
  patch_ops (record_of document queryOptions ops)
  = if has_key "ops" (own_props (includes options)) then [] else ops.
Proof.
  unfold patch_ops, record_of.
  set (g := fun nt : string * jsval =>
              FVal (included_value document queryOptions (fst nt) (snd nt))).
  destruct (has_key "ops" (own_props (includes options))) eqn:E.
  - apply has_key_keys in E.
    destruct (field_of_fold_fval g "ops" (own_props (includes options))
                [("ops", FOps ops); ("ref", FVal (Document._id document))]) as [v Hv].
    + intros nt. eexists. reflexivity.
    + exact E.
    + unfold g in Hv. now rewrite Hv.
  - assert (~ In "ops" (keys (own_props (includes options)))) as Hnot.
    { intros Hin. apply has_key_keys in Hin. congruence. }
    pose proof (field_of_fold_absent g "ops" (own_props (includes options))
                  [("ops", FOps ops); ("ref", FVal (Document._id document))] Hnot) as Hf.
    unfold g in Hf. now rewrite Hf.
Qed.




(** C4 (amended).  [createPatch] never writes to the tracked collection
    and appends at most one record.  With [ops] the operations [compare]
    finds between the before snapshot ([{}] for a new document or one
    without snapshot) and the after state: an empty [ops] completes and
    stores nothing; a non-empty [ops] stores the assembled record when the
    patch model accepts it, is rejected with the validation error, store
    untouched, when it does not, and throws, store untouched, when an
    included field's definition is [null] or [undefined].  So a record is
    persisted if and only if the diff is non-empty, the record can be
    assembled and the patch model accepts it. *)
Theorem createPatch_persists_accepted_diff
    (document : Document) (queryOptions : option obj) (w : World) :
  let before :=
    if Document.isNew document then VObj []
    else if truthy (Document._original document) then Document._original document
         else VObj [] in
  let ops := compare before (VObj (toJSON (data document))) in
  let record :=
    record_of document (or_empty queryOptions)
      (if truthy (trackOriginalValue options) then map (track document) ops else ops) in
  let out := createPatch document queryOptions w in
  rows (snd out) = rows w
  /\ (ops = [] -> out = (Ok Resolved, w))
  /\ (ops <> [] -> unreadable_include = None -> accepted record = true ->
      out = (Ok Resolved, {| rows := rows w; patches := patches w ++ [record] |}))
  /\ (ops <> [] -> unreadable_include = None -> accepted record = false ->
      out = (Ok (Rejected (ValidationError "Validation failed")), w))
  /\ (ops <> [] -> forall e, unreadable_include = Some e -> out = (Throw e, w))
  /\ ((exists p, patches (snd out) = patches w ++ [p])
      <-> ops <> [] /\ unreadable_include = None /\ accepted record = true).
Proof.
  intros before ops record out.
  assert (diff document = ops) as Hdiff by reflexivity.
  assert (record = record_of document (or_empty queryOptions) (stored_ops document)) as Hrecord
    by reflexivity.
  assert (forall p : Patch, patches w <> patches w ++ [p]) as Hgrows.
  { intros p E. apply (f_equal (@List.length Patch)) in E.
    rewrite length_app in E. simpl in E. lia. }
  unfold out. rewrite createPatch_run, <- Hrecord, Hdiff. clear out.
  destruct ops as [| e ops'] eqn:Eops.
  - split; [reflexivity|]. split; [reflexivity|].
    split; [congruence|]. split; [congruence|]. split; [congruence|].
    split.
    + intros [p Hp]. now elim (Hgrows p).
    + intros [Hne _]. congruence.
  - destruct unreadable_include as [err |] eqn:Eread.
    + split; [reflexivity|]. split; [discriminate|].
      split; [discriminate|]. split; [discriminate|].
      split; [intros _ e0 E; now injection E as <-|].
      split.
      * intros [p Hp]. now elim (Hgrows p).
      * intros [_ [Hnone _]]. discriminate.
    + destruct (accepted record) eqn:Ea.
      * split; [reflexivity|]. split; [discriminate|].
        split; [reflexivity|]. split; [discriminate|]. split; [discriminate|].
        split; [intros _; repeat split; discriminate | intros _; now exists record].
      * split; [reflexivity|]. split; [discriminate|].
        split; [discriminate|]. split; [reflexivity|]. split; [discriminate|].
        split.
        -- intros [p Hp]. now elim (Hgrows p).
        -- intros [_ [_ Hacc]]. discriminate.
Qed.

(** *** Included fields *)


(** *** Original values *)





















(** *** Cascade deletion *)


(** C10.  A query-based removal with [removePatches] on whose filter
    selects no document: the hook hands [null] to [deletePatches], whose
    first property read throws; the hook ends in that TypeError and the
    store is as it was. *)
Theorem findOneAndRemove_without_target_fails (this : Query) (w : World) :
  truthy (removePatches options) = true ->
  filter (matches (Query._conditions this)) (rows w) = [] ->
  preFindOneAndRemove this w
  = (Throw (TypeError "Cannot read property '_id' of null"), w).
Proof.
  intros Hon Hnone. unfold preFindOneAndRemove. rewrite Hon. simpl.
  unfold bind, findOne, gets. rewrite (fetch_nothing _ _ _ Hnone). reflexivity.
Qed.

(** *** Single-target updates *)

Lemma data_of_nothing (k : string) (v : jsval) :
  delete_prop "_id" (delete_prop k [("_id", v)]) = [].
Proof.
  unfold delete_prop. simpl. destruct (String.eqb k "_id"); reflexivity.
Qed.

Lemma blank_without_defaults : defaults host = [] -> toJSON (data blank) = [].
Proof.
  intros Hnone.
  cbv beta iota zeta delta [data toObject blank Document._id Document.fields].
  rewrite Hnone.
  assert (delete_prop "_id"
            (if truthy (versionKey host)
             then delete_prop (to_key (versionKey host)) [("_id", new_id)]
             else [("_id", new_id)]) = []) as ->.
  { destruct (truthy (versionKey host)); [apply data_of_nothing | reflexivity]. }
  destruct (truthy (timestamps host)); reflexivity.
Qed.

(** C6 (amended).  The pre-phase of a single-target update completes
    without touching the store and leaves as baseline the JSON snapshot
    of the first document the query filter selects; when it selects none,
    the snapshot of a blank instance, [new this.model ({})], which is the
    empty object when the schema gives a blank instance no fields.  The
    identity is recorded only when a document was selected. *)
Theorem preUpdateOne_baseline (this : Query) (w : World) :
  exists this',
    preUpdateOne this w = (Ok this', w)
    /\ Query._original this'
       = VObj (toJSON (data (match selected (Query._conditions this) w with
                             | Some original => original
                             | None => blank
                             end)))
    /\ Query._originalId this'
       = match selected (Query._conditions this) w with
         | Some original => Document._id original
         | None => Query._originalId this
         end
    /\ (selected (Query._conditions this) w = None -> defaults host = [] ->
        Query._original this' = VObj []).
Proof.
  unfold preUpdateOne, bind. rewrite findOne_run.
  destruct (selected (Query._conditions this) w) as [original |] eqn:E;
    eexists; (split; [reflexivity|]); simpl; repeat split; try discriminate.
  intros _ Hnone. now rewrite blank_without_defaults.
Qed.

(** *** Bulk updates *)


Lemma preUpdateMany_run (this : Query) (w : World) :
  preUpdateMany this w
  = (Ok (Query.set_originals
           (map row_id (fetch (Query._conditions this) [] w))
           (map snapshot_of (fetch (Query._conditions this) [] w))
           this),
     w).
Proof.
  unfold preUpdateMany, bind, find, gets, ret. rewrite !map_map. reflexivity.
Qed.

Lemma map_indexed_throws (queryOptions : obj) (snaps : list jsval)
    (l : list Row) (i : nat) (w : World) (e : error) :
  unreadable_include = Some e ->
  paired queryOptions snaps i l <> [] ->
  map_indexed
    (fun doc j =>
       createPatch (Document.set__original (nth j snaps VUndef) doc) (Some queryOptions))
    (map init l) i w
  = (Throw e, w).
Proof.
  intros Hread. revert i w. induction l as [| r l IH]; intros i w Hsome; [now elim Hsome|].
  revert Hsome. unfold paired. cbn [map map_indexed numbered flat_map fst snd].
  fold (paired queryOptions snaps (S i) l).
  unfold bind. rewrite createPatch_run. unfold patch_to_store.
  destruct (diff (Document.set__original (nth i snaps VUndef) (init r))) as [| e0 ops].
  - cbn [app]. intros Hsome. now rewrite IH.
  - now rewrite Hread.
Qed.

Lemma map_indexed_created (queryOptions : obj) (snaps : list jsval)
    (l : list Row) (i : nat) (w : World) :
  unreadable_include = None \/ paired queryOptions snaps i l = [] ->
  exists created,
    map_indexed
      (fun doc j =>
         createPatch (Document.set__original (nth j snaps VUndef) doc) (Some queryOptions))
      (map init l) i w
    = (Ok created,
       {| rows := rows w;
          patches := patches w ++ filter accepted (paired queryOptions snaps i l) |})
    /\ Promise_all created
       = if forallb accepted (paired queryOptions snaps i l) then Resolved
         else Rejected (ValidationError "Validation failed").
Proof.
  revert i w. induction l as [| r l IH]; intros i w Hcase.
  - exists []. cbn. split; [now rewrite world_with_nothing_added | reflexivity].
  - revert Hcase. unfold paired. cbn [map map_indexed numbered flat_map fst snd].
    fold (paired queryOptions snaps (S i) l).
    unfold bind. rewrite createPatch_run. unfold patch_to_store. cbn [or_empty].
    set (document := Document.set__original (nth i snaps VUndef) (init r)).
    destruct (diff document) as [| e ops].
    + cbn [app]. intros Hcase. destruct (IH (S i) w Hcase) as [created [-> Hall]].
      exists (Resolved :: created). split; [reflexivity | exact Hall].
    + cbn [app]. intros [Hread | Hnone]; [|discriminate Hnone]. rewrite Hread.
      set (p := record_of document queryOptions (stored_ops document)).
      destruct (accepted p) eqn:Ea.
      * destruct (IH (S i) {| rows := rows w; patches := patches w ++ [p] |}
                    (or_introl Hread)) as [created [-> Hall]].
        exists (Resolved :: created).
        cbn [filter forallb rows patches]. rewrite Ea. cbn [andb]. rewrite <- app_assoc.
        split; [reflexivity | exact Hall].
      * destruct (IH (S i) w (or_introl Hread)) as [created [-> Hall]].
        exists (Rejected (ValidationError "Validation failed") :: created).
        cbn [filter forallb]. rewrite Ea. cbn [andb].
        split; reflexivity.
Qed.

Lemma created_all_and_settled (queryOptions : obj) (snaps : list jsval)
    (l : list Row) (w : World) :
  bind (map_indexed
          (fun doc j =>
             createPatch (Document.set__original (nth j snaps VUndef) doc) (Some queryOptions))
          (map init l) 0)
       (fun created => settle (Promise_all created)) w
  = handed_over (paired queryOptions snaps 0 l) w.
Proof.
  unfold bind, handed_over.
  destruct (paired queryOptions snaps 0 l) as [| p ps] eqn:Ep.
  - destruct (map_indexed_created queryOptions snaps l 0 w) as [created [-> Hall]];
      [now right|].
    rewrite Ep in *. rewrite Hall. reflexivity.
  - destruct unreadable_include as [err |] eqn:Eread.
    + rewrite (map_indexed_throws queryOptions snaps l 0 w err Eread); [reflexivity|].
      rewrite Ep. discriminate.
    + destruct (map_indexed_created queryOptions snaps l 0 w) as [created [-> Hall]];
        [now left|].
      rewrite Ep in *. rewrite Hall.
      destruct (forallb accepted (p :: ps)); reflexivity.
Qed.

Lemma postUpdateMany_run (this : Query) (result : jsval) (w : World) (ids snaps : list jsval) :
  Query._originalIds this = Some ids ->
  Query._originals this = Some snaps ->
  nothing_modified result = false ->
  postUpdateMany this result w
  = handed_over
      (paired (Query.options this) snaps 0
         (fetch (if Nat.eqb (List.length ids) 0
                 then VObj (mergeQueryConditionsWithUpdate (Query._conditions this)
                                                           (Query._update this))
                 else by_identities ids) [] w))
      w.
Proof.
  intros Hids Hsnaps Hrun. unfold postUpdateMany. rewrite Hrun, Hids, Hsnaps.
  unfold find. rewrite bind_gets. apply created_all_and_settled.
Qed.




(** ** Further properties *)

(** *** Snapshots *)





Lemma diff_of_snapshot (d : Document) :
  (forall a, compare a a = []) -> Document.isNew d = false -> diff (snapshot d) = [].
Proof.
  intros Hsame Hold. unfold diff, baseline, snapshot.
  cbn [Document.isNew Document._original Document.set__original].
  rewrite Hold. apply Hsame.
Qed.

Lemma preSave_run (document : Document) (w : World) :
  preSave document w = handed_over (patch_to_store document []) w.
Proof. unfold preSave. apply (created_and_settled document None). Qed.

(** X4.  Saving a document that has not changed since its snapshot was
    taken stores nothing: for an instance that is not new, the pre-save
    hook run right after the post-init or post-save hook leaves the store
    as it is; so does saving a document just loaded from the store. *)
Theorem save_after_snapshot_stores_nothing (d : Document) (r : Row) (w : World) :
  (forall a, compare a a = []) ->
  Document.isNew d = false ->
  preSave (snapshot d) w = (Ok tt, w)
  /\ preSave (init r) w = (Ok tt, w).
Proof.
  intros Hsame Hold. rewrite !preSave_run. unfold patch_to_store, init.
  rewrite !diff_of_snapshot by (try exact Hsame; try exact Hold; reflexivity).
  cbn. now rewrite world_with_nothing_added.
Qed.

(** *** The shape of a patch record *)

(** X5.  With the default options (no [includes], no
    [trackOriginalValue] given) the record [createPatch] hands to the
    patch model for a changed document is exactly [{ ops, ref }]: the diff
    as [compare] returned it and the document's identity.  That record is
    what is stored, when the patch model accepts it. *)
Theorem default_options_store_the_bare_diff
    (opts : jsval) (document : Document) (queryOptions : option obj) (w : World) :
  options = mergeOptions opts ->
  prop opts "includes" = VUndef ->
  prop opts "trackOriginalValue" = VUndef ->
  patches (snd (createPatch document queryOptions w))
  = patches w
    ++ match diff document with
       | [] => []
       | e :: ops =>
           filter accepted [[("ops", FOps (e :: ops)); ("ref", FVal (Document._id document))]]
       end.
Proof.
  intros Hopts Hincl Htrack. rewrite createPatch_run.
  destruct (diff document) as [| e ops] eqn:Ed; cbn [snd patches].
  - now rewrite app_nil_r.
  - unfold unreadable_include, record_of, stored_ops. rewrite Ed, Hopts. unfold mergeOptions.
    cbn [includes trackOriginalValue]. rewrite Hincl, Htrack.
    cbn [or_default own_props first_unreadable fold_left truthy filter].
    destruct (accepted _); cbn [snd patches]; [reflexivity | now rewrite app_nil_r].
Qed.

(** X6.  Tracking original values only annotates: whether it is on or
    off, the stored operations are the diff's operations, as many, in the
    same order, with the same [op], [path] and [value]; with tracking off
    they are the diff itself. *)
Theorem tracking_only_annotates
    (document : Document) (queryOptions : option obj) (w : World) (p : Patch) :
  patches (snd (createPatch document queryOptions w)) = patches w ++ [p] ->
  has_key "ops" (own_props (includes options)) = false ->
  map core (patch_ops p) = map core (diff document)
  /\ (truthy (trackOriginalValue options) = false -> patch_ops p = diff document).
Proof.
  intros Hp Hops. apply appended_patch in Hp. destruct Hp as [_ [_ [-> _]]].
  rewrite patch_ops_record, Hops. unfold stored_ops.
  destruct (truthy (trackOriginalValue options)).
  - split; [|discriminate]. rewrite map_map. apply map_ext. reflexivity.
  - split; reflexivity.
Qed.

(** X7.  The fields of a stored patch record are [ops], [ref] and then
    the included fields in the order they are configured, when none of
    these is itself named [ops] or [ref] and none has an array index for
    its name (JavaScript lists such names first). *)
Theorem patch_record_fields
    (document : Document) (queryOptions : option obj) (w : World) (p : Patch) :
  NoDup (keys (own_props (includes options))) ->
  Forall (fun k => array_index k = None) (keys (own_props (includes options))) ->
  has_key "ops" (own_props (includes options)) = false ->
  has_key "ref" (own_props (includes options)) = false ->
  patches (snd (createPatch document queryOptions w)) = patches w ++ [p] ->
  map fst p = "ops" :: "ref" :: keys (own_props (includes options)).
Proof.
  intros Hnd Hplain Hops Href Hp. apply appended_patch in Hp. destruct Hp as [_ [_ [-> _]]].
  unfold record_of.
  rewrite (fold_set_field_keys
             (fun nt =>
                FVal (included_value document (or_empty queryOptions) (fst nt) (snd nt)))).
  - reflexivity.
  - exact Hnd.
  - exact Hplain.
  - intros k Hin Hown. apply has_key_keys in Hin.
    destruct Hown as [E | [E | []]]; subst k; cbn [fst] in Hin; congruence.
Qed.

(** X8.  An included field that is itself named [ref] takes the place of
    the document's identity: the stored record's [ref] is that field's
    value. *)
Theorem included_ref_replaces_identity
    (document : Document) (queryOptions : option obj) (w : World) (p : Patch) (type : jsval) :
  NoDup (keys (own_props (includes options))) ->
  In ("ref", type) (own_props (includes options)) ->
  patches (snd (createPatch document queryOptions w)) = patches w ++ [p] ->
  patch_ref p = included_value document (or_empty queryOptions) "ref" type.
Proof.
  intros Hnd Hin Hp. apply appended_patch in Hp. destruct Hp as [_ [_ [-> _]]].
  unfold patch_ref. now rewrite (record_of_included _ _ _ "ref" type Hnd Hin).
Qed.

(** *** What the hooks write *)

Lemma appends_only_ret (A : Type) (a : A) : appends_only (ret a).
Proof. intros w. split; [reflexivity|]. exists []. cbn. now rewrite app_nil_r. Qed.

Lemma appends_only_throw (A : Type) (e : error) : appends_only (@throw World A e).
Proof. intros w. split; [reflexivity|]. exists []. cbn. now rewrite app_nil_r. Qed.

Lemma appends_only_gets (A : Type) (f : World -> A) : appends_only (gets f).
Proof. intros w. split; [reflexivity|]. exists []. cbn. now rewrite app_nil_r. Qed.

Lemma appends_only_settle (p : promise) : appends_only (@settle World p).
Proof. destruct p; [apply appends_only_ret | apply appends_only_throw]. Qed.

Lemma appends_only_bind (A B : Type) (c : M World A) (k : A -> M World B) :
  appends_only c -> (forall a, appends_only (k a)) -> appends_only (bind c k).
Proof.
  intros Hc Hk w. unfold bind. destruct (Hc w) as [Hrows [added Hadded]].
  destruct (c w) as [[a | e] w']; cbn [snd] in *.
  - destruct (Hk a w') as [Hrows' [added' Hadded']]. split; [congruence|].
    exists (added ++ added'). rewrite Hadded', Hadded. now rewrite app_assoc.
  - split; [exact Hrows|]. now exists added.
Qed.

Lemma appends_only_createPatch (document : Document) (queryOptions : option obj) :
  appends_only (createPatch document queryOptions).
Proof.
  intros w. rewrite createPatch_run.
  destruct (diff document); [apply (appends_only_ret _ Resolved)|].
  destruct unreadable_include; [apply (appends_only_throw promise)|].
  destruct (accepted _); cbn [snd rows patches].
  - split; [reflexivity|]. eexists. reflexivity.
  - apply (appends_only_ret _ Resolved).
Qed.

Lemma appends_only_map_indexed (A B : Type) (f : A -> nat -> M World B) (l : list A) (i : nat) :
  (forall x j, appends_only (f x j)) -> appends_only (map_indexed f l i).
Proof.
  intros Hf. revert i. induction l as [| x l IH]; intros i; cbn [map_indexed].
  - apply appends_only_ret.
  - apply appends_only_bind; [apply Hf|]. intros y.
    apply appends_only_bind; [apply IH|]. intros ys. apply appends_only_ret.
Qed.

Lemma appends_only_preSave (document : Document) : appends_only (preSave document).
Proof.
  apply appends_only_bind; [apply appends_only_createPatch | apply appends_only_settle].
Qed.

Lemma appends_only_postUpdateOne (this : Query) (result : jsval) :
  appends_only (postUpdateOne this result).
Proof.
  unfold postUpdateOne. destruct (nothing_modified result); [apply appends_only_ret|].
  apply appends_only_bind; [apply appends_only_gets|].
  intros [doc |]; [|apply appends_only_ret].
  apply appends_only_bind; [apply appends_only_createPatch | apply appends_only_settle].
Qed.

Lemma appends_only_postUpdateMany (this : Query) (result : jsval) :
  appends_only (postUpdateMany this result).
Proof.
  unfold postUpdateMany. destruct (nothing_modified result); [apply appends_only_ret|].
  destruct (Query._originalIds this); [|apply appends_only_throw].
  apply appends_only_bind; [apply appends_only_gets|].
  intros docs. apply appends_only_bind; [|intros created; apply appends_only_settle].
  apply appends_only_map_indexed. intros doc j.
  destruct (Query._originals this); [apply appends_only_createPatch | apply appends_only_throw].
Qed.

(** X9.  No save or update hook writes to the tracked collection, and
    none removes or alters a stored patch: whatever the query, the result
    and the store, and also when the hook fails, the pre-save hook and the
    four update post-phases leave every row as it is and the patch
    collection as it was with, at most, new records at its end; the update
    pre-phases leave the whole store as it was. *)
Theorem save_and_update_hooks_only_append
    (document : Document) (this : Query) (result doc : jsval) :
  appends_only (preSave document)
  /\ appends_only (postUpdateOne this result)
  /\ appends_only (postFindOneAndUpdate this doc)
  /\ appends_only (postUpdateMany this result)
  /\ appends_only (postUpdate this result)
  /\ (forall w, snd (preUpdateOne this w) = w
                /\ snd (preUpdateMany this w) = w
                /\ snd (preUpdate this w) = w).
Proof.
  split; [apply appends_only_preSave|].
  split; [apply appends_only_postUpdateOne|].
  split; [apply appends_only_postUpdateOne|].
  split; [apply appends_only_postUpdateMany|].
  split.
  - unfold postUpdate. destruct (truthy (prop (VObj (Query.options this)) "multi"));
      [apply appends_only_postUpdateMany | apply appends_only_postUpdateOne].
  - intros w. unfold preUpdate.
    destruct (truthy (prop (VObj (Query.options this)) "multi")); repeat split.
Qed.

(** *** Re-resolving the updated documents *)

Lemma fetch_by_identity (id : jsval) (w : World) (x : Row) :
  In x (fetch (by_identity id) [] w) <-> In x (rows w) /\ row_id x = id.
Proof.
  rewrite fetch_members. unfold by_identity. rewrite matches_eq, jsval_eqb_eq. reflexivity.
Qed.

Lemma fetch_by_identities (ids : list jsval) (w : World) (x : Row) :
  In x (fetch (by_identities ids) [] w)
  <-> In x (rows w) /\ existsb (jsval_eqb (row_id x)) ids = true.
Proof.
  rewrite fetch_members. unfold by_identities. now rewrite matches_in.
Qed.

Lemma postUpdateOne_by_identity (this : Query) (result : jsval) (w : World) :
  nothing_modified result = false ->
  truthy (Query._originalId this) = true ->
  postUpdateOne this result w
  = handed_over
      match List.hd_error (fetch (by_identity (Query._originalId this)) [] w) with
      | Some r' =>
          patch_to_store (Document.set__original (Query._original this) (init r'))
                         (Query.options this)
      | None => []
      end
      w.
Proof.
  intros Hrun Hid. unfold postUpdateOne. rewrite Hrun, Hid.
  unfold findOne. rewrite bind_gets. fold (by_identity (Query._originalId this)).
  destruct (fetch (by_identity (Query._originalId this)) [] w) as [| r' rest];
    cbn [map List.hd_error].
  - cbn. now rewrite world_with_nothing_added.
  - apply (created_and_settled _ (Some (Query.options this))).
Qed.

(** X10.  A single-target update whose filter selects a document with a
    truthy identity is re-resolved by that identity alone.  Whatever the
    store holds after the write, the post-phase (of update-one when the
    result does not report nothing modified, of find-and-update always)
    looks up the first document with the recorded identity, also when it
    no longer matches the query filter, diffs it against the pre-phase
    snapshot of the selected document and has one record for the patch
    store if that diff has an operation; when no document has that identity
    any more it stores nothing and completes.  The record is stored and
    the hook completes when the record can be assembled and the patch model
    accepts it. *)
Theorem updateOne_resolves_by_identity
    (this : Query) (result : jsval) (w w1 : World) (r : Row) :
  List.hd_error (fetch (Query._conditions this) [] w) = Some r ->
  truthy (row_id r) = true ->
  nothing_modified result = false ->
  let this' := Query.set__original (snapshot_of r) (Query.set__originalId (row_id r) this) in
  let stored :=
    match List.hd_error (fetch (by_identity (row_id r)) [] w1) with
    | Some r' =>
        patch_to_store (Document.set__original (snapshot_of r) (init r')) (Query.options this)
    | None => []
    end in
  preUpdateOne this w = (Ok this', w)
  /\ postUpdateOne this' result w1 = handed_over stored w1
  /\ (forall doc, postFindOneAndUpdate this' doc w1 = handed_over stored w1)
  /\ (unreadable_include = None -> forallb accepted stored = true ->
      handed_over stored w1
      = (Ok tt, {| rows := rows w1; patches := patches w1 ++ stored |}))
  /\ (forall x, In x (fetch (by_identity (row_id r)) [] w1)
                <-> In x (rows w1) /\ row_id x = row_id r)
  /\ (forall r',
        diff (Document.set__original (snapshot_of r) (init r'))
        = compare (snapshot_of r) (snapshot_of r')).
Proof.
  intros Hsel Hid Hrun this' stored.
  split; [|split; [|split; [|split; [|split]]]].
  - unfold preUpdateOne, bind, findOne, gets, ret.
    destruct (fetch (Query._conditions this) [] w) as [| r0 rest]; [discriminate|].
    cbn in Hsel. injection Hsel as ->. reflexivity.
  - now rewrite postUpdateOne_by_identity.
  - intros doc. unfold postFindOneAndUpdate. now rewrite postUpdateOne_by_identity.
  - apply handed_over_accepted.
  - apply fetch_by_identity.
  - intros r'. reflexivity.
Qed.

Lemma paired_without_snapshots (queryOptions : obj) (l : list Row) (i : nat) :
  paired queryOptions [] i l = flat_map (fun r => patch_to_store (unanchored r) queryOptions) l.
Proof.
  revert i. induction l as [| r l IH]; intros i; [reflexivity|].
  unfold paired. cbn [numbered flat_map fst snd].
  fold (paired queryOptions [] (S i) l). rewrite IH.
  assert (nth i [] VUndef = VUndef) as -> by (destruct i; reflexivity).
  reflexivity.
Qed.

(** X11.  An update-many whose pre-phase selected no document and whose
    post-phase runs (an upsert) re-resolves by the merged filter and has
    no baseline for what it finds: every document that filter selects
    after the write is diffed against the empty object, so each of them,
    created by the update or not, gets a record that adds all of its
    snapshot (none when [compare] finds nothing to add).  The records are
    stored and the hook completes when they can be assembled and the patch
    model accepts them. *)
Theorem updateMany_without_selection
    (this : Query) (result : jsval) (w w1 : World) :
  filter (matches (Query._conditions this)) (rows w) = [] ->
  nothing_modified result = false ->
  let this' := Query.set_originals [] [] this in
  let merged :=
    VObj (mergeQueryConditionsWithUpdate (Query._conditions this) (Query._update this)) in
  let stored :=
    flat_map (fun r => patch_to_store (unanchored r) (Query.options this))
             (fetch merged [] w1) in
  preUpdateMany this w = (Ok this', w)
  /\ postUpdateMany this' result w1 = handed_over stored w1
  /\ (unreadable_include = None -> forallb accepted stored = true ->
      handed_over stored w1
      = (Ok tt, {| rows := rows w1; patches := patches w1 ++ stored |}))
  /\ (forall x, In x (fetch merged [] w1) <-> In x (rows w1) /\ matches merged x = true)
  /\ (forall r, diff (unanchored r) = compare (VObj []) (snapshot_of r)).
Proof.
  intros Hnone Hrun this' merged stored.
  split; [|split; [|split; [|split]]].
  - rewrite preUpdateMany_run, (fetch_nothing _ _ _ Hnone). reflexivity.
  - rewrite (postUpdateMany_run this' result w1 [] []) by (try reflexivity; exact Hrun).
    cbn [List.length Nat.eqb]. now rewrite paired_without_snapshots.
  - apply handed_over_accepted.
  - intros x. apply fetch_members.
  - intros r. reflexivity.
Qed.

(** X12.  The cascade is idempotent and exact: run a second time on the
    store it left, the pre-remove hook changes nothing; and when no stored
    patch has the document's identity as [ref] it changes nothing the
    first time either. *)
Theorem cascade_is_idempotent (this : Document) (w : World) :
  preRemove this (snd (preRemove this w)) = (Ok tt, snd (preRemove this w))
  /\ ((forall p, In p (patches w) -> has_ref (Document._id this) p = false) ->
      preRemove this w = (Ok tt, w)).
Proof.
  unfold preRemove. destruct (truthy (removePatches options)); cbn [negb].
  - unfold deletePatches, modify. cbn [snd rows patches]. split.
    + f_equal. f_equal. rewrite filter_after_filter. apply filter_ext.
      intros p. now destruct (has_ref (Document._id this) p).
    + intros Hnone. f_equal. destruct w as [rs ps]. cbn [rows patches] in *. f_equal.
      apply forallb_filter_id, forallb_forall. intros p Hp. now rewrite Hnone.
  - split; reflexivity.
Qed.

(** X18.  The post-phase of an update-many pairs documents and baselines
    by position, not by identity: it re-fetches the documents whose
    identity was recorded, in the order the store returns them, and diffs
    the i-th of them against the i-th pre-phase snapshot ([undefined],
    hence the empty object, past the last snapshot).  The pairs are the
    right ones only if the store returns the same documents in the same
    order as in the pre-phase.  The records are stored and the hook
    completes when they can be assembled and the patch model accepts
    them. *)
Theorem updateMany_pairs_by_position
    (this : Query) (result : jsval) (w : World) (ids snaps : list jsval) :
  Query._originalIds this = Some ids ->
  Query._originals this = Some snaps ->
  ids <> [] ->
  nothing_modified result = false ->
  let stored :=
    flat_map
      (fun ir =>
         patch_to_store (Document.set__original (nth (fst ir) snaps VUndef) (init (snd ir)))
                        (Query.options this))
      (numbered 0 (fetch (by_identities ids) [] w)) in
  postUpdateMany this result w = handed_over stored w
  /\ (unreadable_include = None -> forallb accepted stored = true ->
      postUpdateMany this result w
      = (Ok tt, {| rows := rows w; patches := patches w ++ stored |}))
  /\ (forall x, In x (fetch (by_identities ids) [] w)
                <-> In x (rows w) /\ existsb (jsval_eqb (row_id x)) ids = true).
Proof.
  intros Hids Hsnaps Hsome Hrun stored.
  assert (postUpdateMany this result w = handed_over stored w) as Hpost.
  { rewrite (postUpdateMany_run this result w ids snaps Hids Hsnaps Hrun).
    assert (Nat.eqb (List.length ids) 0 = false) as ->
      by (destruct ids; [congruence | reflexivity]).
    reflexivity. }
  split; [exact Hpost|]. split.
  - intros Hread Hall. rewrite Hpost. now apply handed_over_accepted.
  - apply fetch_by_identities.
Qed.

(** *** The guard of the post-phases *)

(** Where the guard fires, the post-phases of update-one, update-many
    and the legacy update return at once, store untouched; the
    find-and-update post-phase never hands it the operation's result. *)
Lemma guard_skips_post_phase (this : Query) (result : jsval) (w : World) :
  nothing_modified result = true ->
  postUpdateOne this result w = (Ok tt, w)
  /\ postUpdateMany this result w = (Ok tt, w)
  /\ postUpdate this result w = (Ok tt, w)
  /\ (forall doc, postFindOneAndUpdate this doc w = postUpdateOne this (VObj []) w)
  /\ nothing_modified (VObj []) = false.
Proof.
  intros Hskip.
  unfold postUpdate, postUpdateOne, postUpdateMany. rewrite Hskip.
  repeat split. destruct (truthy (prop (VObj (Query.options this)) "multi")); reflexivity.
Qed.

(** The guard reads [nModified]: a result without that property, or with
    another value there, never fires it. *)
Lemma guard_needs_nModified (result : jsval) :
  jsval_eqb (prop result "nModified") (VNum 0) = false -> nothing_modified result = false.
Proof. unfold nothing_modified. now intros ->. Qed.

(** *** Removals *)



End Properties.

(** ** Attaching the plugin *)

Section AttachProperties.
Context {factory : SchemaFactory}.

Lemma existsb_data (ms : list string) : existsb (String.eqb "data") ms = true <-> In "data" ms.
Proof.
  rewrite existsb_exists. split.
  - intros [m [Hin E]]. apply String.eqb_eq in E. now subst.
  - intros Hin. exists "data". split; [exact Hin | apply String.eqb_refl].
Qed.

(** C9.  Attaching the plugin fails, leaving the schema without any new
    method, accessor or hook and the connector without any new model,
    whenever the [mongoose] option is missing, the [name] option is
    missing, the schema already has an instance method [data], or the
    schema's [_id] has no type. *)
Theorem plugin_rejects_bad_setup (opts : jsval) (s : Setup) :
  truthy (prop opts "mongoose") = false
  \/ truthy (prop opts "name") = false
  \/ In "data" (methods (the_schema s))
  \/ truthy (prop (tree__id (the_schema s)) "type") = false ->
  exists e, plugin opts s = (Throw e, s).
Proof.
  intros Hbad.
  assert (truthy (prop opts "mongoose") = false
          \/ truthy (prop opts "name") = false
          \/ existsb (String.eqb "data") (methods (the_schema s)) = true
          \/ truthy (prop (tree__id (the_schema s)) "type") = false) as Hbad'.
  { rewrite existsb_data. exact Hbad. }
  clear Hbad.
  cbv beta iota zeta delta [plugin bind gets assert ret throw mergeOptions mongoose name].
  destruct (tree__id (the_schema s)) eqn:Et; cbv beta iota zeta;
    try (eexists; reflexivity);
    (destruct (truthy (prop opts "mongoose")) eqn:Em; cbv beta iota zeta;
       [|eexists; reflexivity]);
    (destruct (truthy (prop opts "name")) eqn:En; cbv beta iota zeta;
       [|eexists; reflexivity]);
    (destruct (existsb (String.eqb "data") (methods (the_schema s))) eqn:Ed;
       cbv beta iota zeta delta [negb]; [eexists; reflexivity|]);
    match goal with
    | |- context [truthy (prop ?t "type")] =>
        destruct (truthy (prop t "type")) eqn:Ei; cbv beta iota zeta;
        [|eexists; reflexivity]
    end;
    exfalso; destruct Hbad' as [Hb | [Hb | [Hb | Hb]]]; congruence.
Qed.

Lemma plugin_fails_on_existing_method (opts : jsval) (s : Setup) :
  existsb (String.eqb "data") (methods (the_schema s)) = true ->
  exists e, plugin opts s = (Throw e, s).
Proof.
  intros Hdata.
  cbv beta iota zeta delta [plugin bind gets assert ret throw mergeOptions mongoose name].
  destruct (tree__id (the_schema s)); cbv beta iota zeta;
    try (eexists; reflexivity);
    (destruct (truthy (prop opts "mongoose")); cbv beta iota zeta; [|eexists; reflexivity]);
    (destruct (truthy (prop opts "name")); cbv beta iota zeta; [|eexists; reflexivity]);
    rewrite Hdata; cbv beta iota zeta delta [negb]; eexists; reflexivity.
Qed.

Lemma bind_read_type (B : Type) (t : jsval) (k : jsval -> M Setup B) (s : Setup) :
  truthy (prop t "type") = true ->
  bind (match t with
        | VUndef | VNull => throw (TypeError "Cannot read property 'type' of undefined")
        | t' => ret (prop t' "type")
        end) k s
  = k (prop t "type") s.
Proof. intros Ht. destruct t; try reflexivity; discriminate Ht. Qed.

Lemma bind_gets_first (A B C : Type) (f : Setup -> A) (k : A -> M Setup B)
    (k' : B -> M Setup C) (s : Setup) :
  bind (bind (gets f) k) k' s = bind (k (f s)) k' s.
Proof. reflexivity. Qed.

Lemma plugin_run (opts : jsval) (s : Setup) :
  truthy (prop opts "mongoose") = true ->
  truthy (prop opts "name") = true ->
  existsb (String.eqb "data") (methods (the_schema s)) = false ->
  truthy (prop (tree__id (the_schema s)) "type") = true ->
  plugin opts s = after_checks opts s.
Proof.
  intros Hm Hn Hd Ht.
  unfold plugin, after_checks. cbv zeta. rewrite bind_gets.
  rewrite bind_read_type by exact Ht.
  cbv beta iota delta [mergeOptions mongoose name].
  rewrite Hm, bind_assert, Hn, bind_assert, bind_gets, Hd. cbn [negb].
  rewrite bind_assert, Ht, bind_assert, bind_modify.
  unfold createPatchModel, attached_setup. cbn [schema name mongoose includes].
  fold (mergeOptions opts).
  destruct (prop opts "schema"); try (rewrite bind_throw; reflexivity).
  change (tree__id (the_schema (add_method "data" s))) with (tree__id (the_schema s)).
  destruct (well_formed _); [|rewrite bind_throw; reflexivity].
  destruct (prop opts "name") as [| | | | [| c rest] | | | |];
    try (rewrite bind_throw; reflexivity).
  destruct (prop (prop opts "mongoose") "model"); try (rewrite bind_throw; reflexivity).
  rewrite bind_gets_first.
  change (registered (String c rest) (add_method "data" s)) with (registered (String c rest) s).
  destruct (registered (String c rest) s); [apply bind_throw|].
  rewrite !bind_modify, modify_run. f_equal.
  destruct s as [[t ms st vs hs vk ts ds] mods].
  cbv beta iota delta [attached_setup add_hook add_accessors add_method installed_hooks
    the_schema models tree__id methods statics virtuals hooks
    versionKey timestamps defaults].
  repeat rewrite <- app_assoc. reflexivity.
Qed.

Lemma data_is_installed (opts : jsval) (s : Setup) :
  existsb (String.eqb "data") (methods (the_schema (attached_setup opts s))) = true
  /\ existsb (String.eqb "data") (methods (the_schema (add_method "data" s))) = true.
Proof.
  split; apply existsb_exists; exists "data"; (split; [|reflexivity]);
    cbn [attached_setup add_method the_schema methods]; apply in_or_app; right; now left.
Qed.


Lemma plugin_checks_first (opts : jsval) (s : Setup) :
  truthy (prop opts "mongoose") = false
  \/ truthy (prop opts "name") = false
  \/ existsb (String.eqb "data") (methods (the_schema s)) = true
  \/ truthy (prop (tree__id (the_schema s)) "type") = false ->
  exists e, plugin opts s = (Throw e, s).
Proof.
  intros Hbad.
  destruct (existsb (String.eqb "data") (methods (the_schema s))) eqn:Ed;
    [now apply plugin_fails_on_existing_method|].
  unfold plugin. cbv zeta. rewrite bind_gets.
  destruct (truthy (prop (tree__id (the_schema s)) "type")) eqn:Et.
  - rewrite bind_read_type by exact Et.
    cbv beta iota delta [mergeOptions mongoose name].
    destruct (truthy (prop opts "mongoose")) eqn:Em; [|eexists; apply bind_throw].
    rewrite bind_assert.
    destruct (truthy (prop opts "name")) eqn:En; [|eexists; apply bind_throw].
    exfalso. destruct Hbad as [Hb | [Hb | [Hb | Hb]]]; discriminate Hb.
  - cbv beta iota delta [mergeOptions mongoose name].
    destruct (tree__id (the_schema s)) eqn:Etree;
      try (eexists; apply bind_throw);
      rewrite bind_ret;
      (destruct (truthy (prop opts "mongoose")); [|eexists; apply bind_throw]);
      rewrite bind_assert;
      (destruct (truthy (prop opts "name")); [|eexists; apply bind_throw]);
      rewrite bind_assert, bind_gets, Ed; cbn [negb];
      rewrite bind_assert, Et; eexists; apply bind_throw.
Qed.

Lemma plugin_success_state (opts : jsval) (s s' : Setup) :
  plugin opts s = (Ok tt, s') -> s' = attached_setup opts s.
Proof.
  intros Hok.
  destruct (truthy (prop opts "mongoose")) eqn:Em;
    [|destruct (plugin_checks_first opts s) as [e He]; [tauto | congruence]].
  destruct (truthy (prop opts "name")) eqn:En;
    [|destruct (plugin_checks_first opts s) as [e He]; [tauto | congruence]].
  destruct (existsb (String.eqb "data") (methods (the_schema s))) eqn:Ed;
    [destruct (plugin_checks_first opts s) as [e He]; [tauto | congruence]|].
  destruct (truthy (prop (tree__id (the_schema s)) "type")) eqn:Et;
    [|destruct (plugin_checks_first opts s) as [e He]; [tauto | congruence]].
  rewrite (plugin_run opts s Em En Ed Et) in Hok. unfold after_checks in Hok.
  destruct (prop opts "schema"); try discriminate Hok.
  destruct (well_formed _); try discriminate Hok.
  destruct (prop opts "name") as [| | | | [| c rest] | | | |]; try discriminate Hok.
  destruct (prop (prop opts "mongoose") "model"); try discriminate Hok.
  destruct (registered (String c rest) s); try discriminate Hok.
  now injection Hok.
Qed.

(** X14.  The plugin cannot be attached twice: on the set-up state a
    successful attachment leaves, every further attachment, whatever its
    options, fails and changes nothing. *)
Theorem plugin_refuses_second_attachment (opts opts' : jsval) (s s' : Setup) :
  plugin opts s = (Ok tt, s') ->
  exists e, plugin opts' s' = (Throw e, s').
Proof.
  intros Hok. apply plugin_success_state in Hok. subst s'.
  apply plugin_fails_on_existing_method.
  exact (proj1 (data_is_installed opts s)).
Qed.

(** X15.  The schema factory option is not checked with the others: when
    it is missing (or not a function) on an otherwise sound set-up,
    attaching fails with a TypeError only after the method [data] has been
    put on the schema.  No accessor, hook or model is added, and the
    schema is left in a state on which every later attachment fails. *)
Theorem plugin_without_schema_factory_half_attaches (opts : jsval) (s : Setup) :
  truthy (prop opts "mongoose") = true ->
  truthy (prop opts "name") = true ->
  ~ In "data" (methods (the_schema s)) ->
  truthy (prop (tree__id (the_schema s)) "type") = true ->
  (forall f ps hs, prop opts "schema" <> VFun f ps hs) ->
  plugin opts s
  = (Throw (TypeError "options.schema is not a constructor"), add_method "data" s)
  /\ methods (the_schema (add_method "data" s)) = methods (the_schema s) ++ ["data"]
  /\ hooks (the_schema (add_method "data" s)) = hooks (the_schema s)
  /\ models (add_method "data" s) = models s
  /\ (forall opts',
        exists e, plugin opts' (add_method "data" s) = (Throw e, add_method "data" s)).
Proof.
  intros Hm Hn Hdata Htype Hschema.
  split; [|repeat split].
  - rewrite plugin_run; try assumption.
    + unfold after_checks.
      destruct (prop opts "schema") as [| | | | | | f ps hs | |] eqn:E; try reflexivity.
      exfalso. now apply (Hschema f ps hs).
    + destruct (existsb (String.eqb "data") (methods (the_schema s))) eqn:E; [|reflexivity].
      apply existsb_data in E. contradiction.
  - intros opts'. apply plugin_fails_on_existing_method.
    exact (proj2 (data_is_installed opts s)).
Qed.

End AttachProperties.

(** ** The JSON round trip *)

Lemma toJSON_value_is_json (v : jsval) : is_json (toJSON_value v) = true.
Proof.
  induction v using jsval_deep_ind; try reflexivity.
  - cbn [toJSON_value is_json]. induction H as [| x xs Hx _ IH]; [reflexivity|].
    cbn [map forallb]. now rewrite Hx, IH.
  - cbn [toJSON_value is_json]. induction H as [| [k x] ps Hx _ IH]; [reflexivity|].
    cbn [snd] in Hx.
    destruct x; try exact IH; cbn [is_json] in *; now rewrite ?Hx, IH.
Qed.

Lemma toJSON_value_fixes_json (v : jsval) : is_json v = true -> toJSON_value v = v.
Proof.
  induction v using jsval_deep_ind; try reflexivity; try discriminate.
  - cbn [toJSON_value is_json]. intros Hall. f_equal.
    induction H as [| x xs Hx _ IH]; [reflexivity|].
    cbn [forallb] in Hall. apply andb_true_iff in Hall. destruct Hall as [Hjx Hjxs].
    cbn [map]. now rewrite Hx, IH.
  - cbn [toJSON_value is_json]. intros Hall. f_equal.
    induction H as [| [k x] ps Hx _ IH]; [reflexivity|].
    cbn [snd] in Hx. apply andb_true_iff in Hall. destruct Hall as [Hjx Hjps].
    specialize (IH Hjps). specialize (Hx Hjx).
    destruct x; try discriminate Hjx; rewrite IH; try reflexivity; now rewrite Hx.
Qed.

Lemma toJSON_as_value (o : obj) : VObj (toJSON o) = toJSON_value (VObj o).
Proof. reflexivity. Qed.

(** X2.  What [toJSON] returns is plain JSON: it holds no [undefined], no
    function and no ObjectId at any depth (ObjectIds have become their hex
    strings). *)
Theorem toJSON_is_plain_json (o : obj) : is_json (VObj (toJSON o)) = true.
Proof. rewrite toJSON_as_value. apply toJSON_value_is_json. Qed.

(** X3.  [toJSON] gives back plain JSON as it is and, applied twice, does
    no more than applied once. *)
Theorem toJSON_round_trip (o : obj) :
  (is_json (VObj o) = true -> toJSON o = o)
  /\ toJSON (toJSON o) = toJSON o.
Proof.
  assert (forall o', is_json (VObj o') = true -> toJSON o' = o') as Hfix.
  { intros o' Hj. apply toJSON_value_fixes_json in Hj.
    rewrite <- toJSON_as_value in Hj. now injection Hj. }
  split; [apply Hfix|]. apply Hfix. rewrite toJSON_as_value. apply toJSON_value_is_json.
Qed.

(** ** The patch schema *)

Lemma lookup_fold_absent (g : string * jsval -> jsval) (k : string) (l acc : obj) :
  ~ In k (keys l) ->
  lookup k (fold_left (fun def nt => set_prop (fst nt) (g nt) def) l acc) = lookup k acc.
Proof.
  revert acc. induction l as [| [k' v] l IH]; intros acc Hnot; simpl; [reflexivity|].
  rewrite IH by (intros Hin; apply Hnot; now right).
  apply lookup_set_other. intros ->. apply Hnot. now left.
Qed.

Lemma lookup_fold_present (g : string * jsval -> jsval) (k : string) (v : jsval) (l acc : obj) :
  NoDup (keys l) -> In (k, v) l ->
  lookup k (fold_left (fun def nt => set_prop (fst nt) (g nt) def) l acc) = Some (g (k, v)).
Proof.
  revert acc. induction l as [| [k' v'] l IH]; intros acc Hnd Hin; simpl; [contradiction|].
  inversion Hnd as [| ? ? Hnotin Hnd']; subst.
  destruct Hin as [E | Hin].
  - injection E as -> ->. rewrite lookup_fold_absent by exact Hnotin.
    cbn [fst]. apply lookup_set_same.
  - now apply IH.
Qed.

Lemma delete_prop_removes (k : string) (o : obj) : has_key k (delete_prop k o) = false.
Proof.
  destruct (has_key k (delete_prop k o)) eqn:E; [|reflexivity].
  apply has_key_keys in E. unfold keys, delete_prop in E. apply in_map_iff in E.
  destruct E as [[k' v] [Hk Hin]]. cbn [fst] in Hk. subst k'.
  apply filter_In in Hin. destruct Hin as [_ Hkept]. cbn [fst] in Hkept.
  now rewrite String.eqb_refl in Hkept.
Qed.

(** X16.  In the patch schema an included field is defined by the own
    enumerable properties of what was configured for it, without [from]:
    a definition object keeps its keys other than [from]; a bare type, a
    function, gives the function's enumerable static properties, hence
    the empty definition when it has none.  [date], [ops] and [ref] keep
    the plugin's definitions unless an included field has their name. *)
Theorem patch_schema_definitions (options : Options) (_idType : jsval) :
  NoDup (keys (own_props (includes options))) ->
  (forall k type, In (k, type) (own_props (includes options)) ->
     (forall hex, type <> VOid hex) ->
     lookup k (patch_definitions options _idType)
     = Some (VObj (delete_prop "from" (own_props type)))
     /\ has_key "from" (delete_prop "from" (own_props type)) = false)
  /\ (forall k o, In (k, VObj o) (own_props (includes options)) ->
        lookup k (patch_definitions options _idType) = Some (VObj (delete_prop "from" o)))
  /\ (forall k text statics hidden,
        In (k, VFun text statics hidden) (own_props (includes options)) ->
        lookup k (patch_definitions options _idType)
        = Some (VObj (delete_prop "from" statics)))
  /\ (forall k, ~ In k (keys (own_props (includes options))) ->
        lookup k (patch_definitions options _idType) = lookup k (own_definitions _idType)).
Proof.
  intros Hnd. unfold patch_definitions. split; [|split; [|split]].
  - intros k type Hin _. split; [|apply delete_prop_removes].
    now rewrite (lookup_fold_present (fun nt => omit_from (snd nt)) k type).
  - intros k o Hin.
    now rewrite (lookup_fold_present (fun nt => omit_from (snd nt)) k (VObj o)).
  - intros k text statics hidden Hin.
    now rewrite (lookup_fold_present (fun nt => omit_from (snd nt)) k
                   (VFun text statics hidden)).
  - intros k Hnot. now apply (lookup_fold_absent (fun nt => omit_from (snd nt))).
Qed.

(** ** The re-resolution filter *)

Lemma set_prop_entries (k : string) (v : jsval) (o : obj) (kv : string * jsval) :
  In kv (set_prop k v o) -> kv = (k, v) \/ In kv o.
Proof. apply assoc_set_entries. Qed.

Lemma assign_from_entries (target : obj) (source : jsval) (kv : string * jsval) :
  In kv (assign_from target source) -> In kv (own_props source) \/ In kv target.
Proof.
  unfold assign_from. revert target.
  induction (own_props source) as [| [k v] l IH]; intros target; simpl; [now right|].
  intros Hin. destruct (IH _ Hin) as [Hl | Ht]; [left; now right|].
  destruct (set_prop_entries _ _ _ _ Ht) as [-> | Ht']; [left; now left | now right].
Qed.

(** X17.  The filter [mergeQueryConditionsWithUpdate] returns has no key
    containing a [$]; each of its entries is an entry of the update
    payload (the [$set] object when there is one, the update otherwise).
    So an update made of operators only, without [$set], gives the empty
    filter. *)
Theorem merged_filter_has_no_operator (_conditions _update : jsval) :
  Forall (fun kv => String_includes "$"%char (fst kv) = false
                    /\ In kv (own_props (update_payload _update)))
         (mergeQueryConditionsWithUpdate _conditions _update)
  /\ ((forall kv, In kv (own_props (update_payload _update)) -> operator_key kv = true) ->
      mergeQueryConditionsWithUpdate _conditions _update = []).
Proof.
  rewrite mergeQueryConditionsWithUpdate_spec_without_conditions.
  unfold merged_filter_spec. fold (update_payload _update).
  assert (forall kv, In kv (Object_assign [] [VUndef; update_payload _update]) ->
                     In kv (own_props (update_payload _update))) as Hfrom.
  { intros kv Hin. unfold Object_assign in Hin. cbn [fold_left] in Hin.
    apply assign_from_entries in Hin. destruct Hin as [Hin | Hin]; [exact Hin|].
    apply assign_from_entries in Hin. destruct Hin as [[] | []]. }
  split.
  - apply Forall_forall. intros kv Hin. apply filter_In in Hin. destruct Hin as [Hin Hop].
    split; [|now apply Hfrom]. now apply negb_true_iff in Hop.
  - intros Hops. apply filter_nothing. intros kv Hin.
    apply Hfrom, Hops in Hin. unfold operator_key in Hin. now rewrite Hin.
Qed.

(** * Scenarios *)

Section Scenarios.
#[local] Existing Instance FastJsonPatch.
#[local] Existing Instance EqStore.
#[local] Existing Instance AnySchema.

(** *** C1 *)

(** C1 (the code at the failing input).  Query conditions [{ name: "x" }]
    with update [{ $set: { title: "B" } }]: the specified filter is
    [{ name: "x", title: "B" }]; the compiled function returns
    [{ title: "B" }] and the untranspiled source raises a ReferenceError,
    neither reads the query conditions.  In an upsert with these
    arguments the specified filter selects the new document, whereas the
    post-phase re-resolves to an older document that has the same title
    and writes the patch under its identity. *)
Theorem mergeQueryConditionsWithUpdate_drops_conditions :
  merged_filter_spec (Query._conditions upsert_x) (Query._update upsert_x)
  = [("name", VStr "x"); ("title", VStr "B")]
  /\ mergeQueryConditionsWithUpdate (Query._conditions upsert_x) (Query._update upsert_x)
     = [("title", VStr "B")]
  /\ mergeQueryConditionsWithUpdate_esm (Query._conditions upsert_x) (Query._update upsert_x)
     = Throw (ReferenceError "Cannot access 'conditions' before initialization")
  /\ preUpdateOne (attached := defaults_only) upsert_x before_upsert
     = (Ok (Query.set__original (VObj []) upsert_x), before_upsert)
  /\ selected (attached := defaults_only)
       (VObj (merged_filter_spec (Query._conditions upsert_x) (Query._update upsert_x)))
       after_upsert
     = Some (init (attached := defaults_only) upserted)
  /\ postUpdateOne (attached := defaults_only)
       (Query.set__original (VObj []) upsert_x) upsert_result after_upsert
     = (Ok tt,
        {| rows := [titled_b; upserted];
           patches :=
             [[("ops", FOps [{| op := "add"; path := "/name"; value := VStr "y";
                                originalValue := None |};
                             {| op := "add"; path := "/title"; value := VStr "B";
                                originalValue := None |}]);
               ("ref", FVal (VOid "b2"))]] |}).
Proof.
  repeat split.
Qed.

(** *** The create, save and update scenarios *)

Example create_scenario :
  preSave (attached := defaults_only)
    {| Document._id := VOid "a1"; Document.isNew := true; Document._original := VUndef;
       Document.fields := [("title", VStr "A")]; Document.locals := [] |}
    nothing_stored
  = (Ok tt, {| rows := []; patches := [patch_for (VOid "a1")] |}).
Proof. reflexivity. Qed.

Example save_without_changes :
  preSave (attached := defaults_only) (init (attached := defaults_only) post_a) two_posts
  = (Ok tt, two_posts).
Proof. reflexivity. Qed.

Example update_one_round_trip :
  exists this',
    preUpdateOne (attached := defaults_only) retitle_a two_posts = (Ok this', two_posts)
    /\ postUpdateOne (attached := defaults_only) this' (update_result 1 1)
         {| rows := [set_title_B post_a; post_b]; patches := [] |}
       = (Ok tt,
          {| rows := [set_title_B post_a; post_b];
             patches :=
               [[("ops", FOps [{| op := "replace"; path := "/title"; value := VStr "B";
                                  originalValue := None |}]);
                 ("ref", FVal (VOid "a1"))]] |}).
Proof. eexists. split; reflexivity. Qed.

(** *** C4 *)

(** C4 (counterexample).  The included field [user] is required, as in
    the README; a loaded post whose title has changed is saved without a
    user.  The diff has operations, yet nothing is persisted: the patch
    model rejects the record and the save fails with its validation
    error. *)
Lemma createPatch_rejected_record_is_not_persisted :
  compare (before_snapshot loaded_post) (after_state (attached := requiring_user) loaded_post)
  <> []
  /\ preSave (attached := requiring_user) loaded_post nothing_stored
     = (Throw (ValidationError "Validation failed"), nothing_stored)
  /\ ~ persisted_iff_diff_nonempty (attached := requiring_user) loaded_post None nothing_stored.
Proof.
  split; [vm_compute; discriminate|]. split; [reflexivity|].
  intros [_ Hstored].
  destruct Hstored as [p Hp]; [vm_compute; discriminate|].
  vm_compute in Hp. discriminate Hp.
Qed.

(** *** C5 *)



(** A bare [Array] as definition has a static [from]: the field is read
    under that function's text, on the document and in the query options,
    and is stored [undefined]. *)
Example included_field_given_as_bare_constructor :
  source_key JS_Array "tags" = "function from() { [native code] }"
  /\ exists p,
       createPatch (attached := tagging) loaded_post (Some [("tags", VStr "q")]) nothing_stored
       = (Ok Resolved, {| rows := []; patches := [p] |})
       /\ field_of "tags" p = Some (FVal VUndef).
Proof. split; [reflexivity|]. eexists. split; [vm_compute; reflexivity | reflexivity]. Qed.

Example included_field_given_as_null :
  createPatch (attached := null_include) loaded_post None nothing_stored
  = (Throw (TypeError "Cannot read property 'from' of null"), nothing_stored).
Proof. reflexivity. Qed.

(** *** C7 *)



(** *** C8 and C10 *)

(** C8 (the code at the failing input).  Two news posts, each with one
    patch; [findOneAndRemove ({ kind: "news" }, { sort: { title: -1 } })]
    removes the one that comes last by title, [b2].  The hook looks up
    [findOne ({ kind: "news" })], without the query's options, finds [a1]
    and deletes the patches of [a1]: the patch of the removed document
    remains, and the document that stays has lost its history. *)
Theorem findOneAndRemove_deletes_the_patches_of_another_document :
  Model_findOneAndRemove (attached := defaults_only) remove_last_news two_news
  = (Ok (Some news_b),
     {| rows := [news_a]; patches := [patch_for (VOid "b2")] |})
  /\ truthy (removePatches (options (Attached := defaults_only))) = true
  /\ selected (attached := defaults_only) (Query._conditions remove_last_news) two_news
     = Some (init (attached := defaults_only) news_a)
  /\ preFindOneAndRemove (attached := defaults_only) remove_last_news two_news
     = (Ok tt, {| rows := [news_a; news_b]; patches := [patch_for (VOid "b2")] |})
  /\ filter (has_ref (row_id news_b)) [patch_for (VOid "b2")] = [patch_for (VOid "b2")]
  /\ filter (has_ref (row_id news_a)) (patches two_news) = [patch_for (VOid "a1")].
Proof.
  repeat split.
Qed.

Example removal_keeps_patches_when_disabled :
  preRemove (attached := keeping_patches) (init (attached := keeping_patches) post_a) two_posts
  = (Ok tt, two_posts)
  /\ Model_findOneAndRemove (attached := keeping_patches) remove_last_news two_news
     = (Ok (Some news_b),
        {| rows := [news_a]; patches := [patch_for (VOid "a1"); patch_for (VOid "b2")] |}).
Proof. split; reflexivity. Qed.

Lemma findOneAndRemove_without_target_fails_witness :
  preFindOneAndRemove (attached := defaults_only)
    (query (VObj [("title", VStr "Z")]) VUndef []) two_posts
  = (Throw (TypeError "Cannot read property '_id' of null"), two_posts).
Proof.
  exact (findOneAndRemove_without_target_fails (attached := defaults_only)
           (query (VObj [("title", VStr "Z")]) VUndef []) two_posts eq_refl eq_refl).
Defined.

(** *** C9 *)

Lemma plugin_rejects_bad_setup_witness :
  exists e,
    plugin (VObj [("name", VStr "PostPatches"); ("schema", builtin "Schema")]) fresh_setup
    = (Throw e, fresh_setup).
Proof.
  apply plugin_rejects_bad_setup. left. reflexivity.
Defined.

Example plugin_attaches :
  exists s,
    plugin bare_opts fresh_setup = (Ok tt, s)
    /\ methods (the_schema s) = ["data"]
    /\ List.length (hooks (the_schema s)) = 13%nat
    /\ map (fun m => snd (fst m)) (models s) = ["postPatches"].
Proof. eexists. repeat split. Qed.

(** *** C6 *)

(** C6 (counterexample).  No document matches the filter and the schema
    has an array path: the baseline is [{ comments: [] }], not the empty
    object. *)
Lemma preUpdateOne_baseline_has_defaults :
  selected (attached := on_posts) (Query._conditions retitle) nothing_stored = None
  /\ ~ baseline_as_specified (attached := on_posts) retitle nothing_stored.
Proof.
  split; [reflexivity|].
  intros [this' [Hrun Hb]]. vm_compute in Hrun. injection Hrun as <-.
  vm_compute in Hb. discriminate Hb.
Qed.

Lemma preUpdateOne_baseline_witness :
  exists this',
    preUpdateOne (attached := defaults_only) retitle two_posts = (Ok this', two_posts)
    /\ Query._original this' = VObj []
    /\ Query._originalId this' = VUndef.
Proof.
  destruct (preUpdateOne_baseline (attached := defaults_only) retitle two_posts)
    as [this' [Hrun [_ [Hid Hempty]]]].
  exists this'. split; [exact Hrun|]. split; [|exact Hid].
  apply Hempty; reflexivity.
Defined.

Example preUpdateOne_selected_document :
  exists this',
    preUpdateOne (attached := defaults_only)
      (query (VObj [("title", VStr "B")]) (VObj [("title", VStr "C")]) []) two_posts
    = (Ok this', two_posts)
    /\ Query._original this' = VObj [("title", VStr "B")]
    /\ Query._originalId this' = VOid "b2".
Proof. eexists. repeat split. Qed.

(** *** C3 *)

(** C3 (the code at the failing input).  [{ name: "x" }] matches nothing
    and nothing is upserted: the store is as it was and the result, as
    mongoose hands it to the post hook, reports [modifiedCount: 0].  It has
    no [nModified], so the guard [result.nModified === 0] does not fire, and
    the find-and-update hook hands the guard an empty object whatever the
    result.  On every pathway the post-phase runs, re-resolves by the update
    payload [{ title: "B" }] and writes a patch for a document the
    operation never touched. *)
Theorem post_phase_runs_when_nothing_was_modified :
  nothing_modified (update_result 0 0) = false
  /\ preUpdateOne (attached := defaults_only) (set_title []) only_b
     = (Ok set_title_after_pre, only_b)
  /\ preUpdateMany (attached := defaults_only) (set_title []) only_b
     = (Ok set_title_many_after_pre, only_b)
  /\ (forall multi,
        preUpdate (attached := defaults_only) (set_title [("multi", VBool multi)]) only_b
        = (Ok (legacy_after_pre multi), only_b))
  /\ postUpdateOne (attached := defaults_only) set_title_after_pre (update_result 0 0) only_b
     = (Ok tt, {| rows := [post_b]; patches := [spurious_patch] |})
  /\ (forall doc,
        postFindOneAndUpdate (attached := defaults_only) set_title_after_pre doc only_b
        = (Ok tt, {| rows := [post_b]; patches := [spurious_patch] |}))
  /\ postUpdateMany (attached := defaults_only) set_title_many_after_pre (update_result 0 0)
       only_b
     = (Ok tt, {| rows := [post_b]; patches := [spurious_patch] |})
  /\ (forall multi,
        postUpdate (attached := defaults_only) (legacy_after_pre multi) (update_result 0 0)
          only_b
        = (Ok tt, {| rows := [post_b]; patches := [spurious_patch] |})).
Proof.
  split; [reflexivity|]. split; [reflexivity|]. split; [reflexivity|].
  split; [intros []; reflexivity|]. split; [reflexivity|].
  split; [intros doc; reflexivity|]. split; [reflexivity|].
  intros []; reflexivity.
Qed.

(** With a result in the older shape the guard does fire. *)
Example post_phase_skipped_on_nModified :
  postUpdateOne (attached := defaults_only) set_title_after_pre
    (VObj [("n", VNum 0); ("nModified", VNum 0); ("ok", VNum 1)]) only_b = (Ok tt, only_b)
  /\ postUpdateMany (attached := defaults_only) set_title_many_after_pre
       (VObj [("n", VNum 0); ("nModified", VNum 0); ("ok", VNum 1)]) only_b = (Ok tt, only_b).
Proof. split; reflexivity. Qed.

(** *** C2 *)



(** The documents come back in another order than the pre-phase had
    them: [b2] was inserted before [a1], the pre-phase reads the
    collection in its order and the re-fetch by identities reads the
    identity index.  Each document is then diffed against the other one's
    snapshot. *)
Example updateMany_pairs_with_the_wrong_snapshot :
  exists this',
    preUpdateMany (attached := defaults_only) flag_news late_a = (Ok this', late_a)
    /\ Query._originalIds this' = Some [VOid "b2"; VOid "a1"]
    /\ map patch_ref
         (patches (snd (postUpdateMany (attached := defaults_only) this' (update_result 2 2)
                          (write_many (Query._conditions flag_news) flag late_a))))
       = [VOid "a1"; VOid "b2"]
    /\ map patch_ops
         (patches (snd (postUpdateMany (attached := defaults_only) this' (update_result 2 2)
                          (write_many (Query._conditions flag_news) flag late_a))))
       = [[{| op := "replace"; path := "/title"; value := VStr "A"; originalValue := None |};
           {| op := "add"; path := "/seen"; value := VBool true; originalValue := None |}];
          [{| op := "replace"; path := "/title"; value := VStr "B"; originalValue := None |};
           {| op := "add"; path := "/seen"; value := VBool true; originalValue := None |}]].
Proof. eexists. split; [reflexivity|]. split; [reflexivity|]. split; vm_compute; reflexivity. Qed.

(** *** Snapshots and records *)


Lemma save_after_snapshot_stores_nothing_witness :
  preSave (attached := defaults_only) (snapshot (attached := defaults_only) loaded_post) two_posts
  = (Ok tt, two_posts)
  /\ preSave (attached := defaults_only) (init (attached := defaults_only) post_a) two_posts
     = (Ok tt, two_posts).
Proof.
  exact (save_after_snapshot_stores_nothing (attached := defaults_only)
           loaded_post post_a two_posts jsonpatch_compare_same eq_refl).
Defined.

Lemma default_options_store_the_bare_diff_witness :
  patches (snd (createPatch (attached := defaults_only) new_post None nothing_stored))
  = [[("ops", FOps two_adds); ("ref", FVal (VOid "a1"))]].
Proof.
  exact (default_options_store_the_bare_diff (attached := defaults_only)
           bare_opts new_post None nothing_stored eq_refl eq_refl eq_refl).
Defined.

Lemma tracking_only_annotates_witness :
  map core (patch_ops tracked_patch) = map core (diff (attached := tracking) loaded_post).
Proof.
  exact (proj1 (tracking_only_annotates (attached := tracking)
                  loaded_post None nothing_stored tracked_patch eq_refl eq_refl)).
Defined.

Lemma patch_record_fields_witness : map fst user_patch = ["ops"; "ref"; "user"].
Proof.
  apply (patch_record_fields (attached := with_user) new_post None nothing_stored user_patch).
  - repeat constructor. simpl. tauto.
  - repeat constructor.
  - reflexivity.
  - reflexivity.
  - reflexivity.
Defined.

(** An included field named like an array index comes first. *)
Example patch_record_fields_with_an_index :
  exists p,
    createPatch (attached := numbered_include) new_post None nothing_stored
    = (Ok Resolved, {| rows := []; patches := [p] |})
    /\ map fst p = ["7"; "ops"; "ref"; "title"].
Proof. eexists. split; [vm_compute; reflexivity | reflexivity]. Qed.

Lemma included_ref_replaces_identity_witness : patch_ref custom_ref_patch = VStr "custom".
Proof.
  apply (included_ref_replaces_identity (attached := ref_included) new_post
           (Some [("ref", VStr "custom")]) nothing_stored custom_ref_patch
           (VObj [("type", builtin "String")])).
  - repeat constructor. simpl. tauto.
  - simpl. left. reflexivity.
  - reflexivity.
Defined.

(** *** Re-resolution *)

(** The document is re-resolved although, with its new title, it no
    longer matches the query filter. *)
Lemma updateOne_resolves_by_identity_witness :
  eq_matches (Query._conditions retitle_a) (set_title_B post_a) = false
  /\ exists this',
       preUpdateOne (attached := defaults_only) retitle_a two_posts = (Ok this', two_posts)
       /\ postUpdateOne (attached := defaults_only) this' (update_result 1 1) after_retitle
          = (Ok tt,
             {| rows := [set_title_B post_a; post_b];
                patches :=
                  [[("ops", FOps [{| op := "replace"; path := "/title"; value := VStr "B";
                                     originalValue := None |}]);
                    ("ref", FVal (VOid "a1"))]] |}).
Proof.
  split; [reflexivity|].
  destruct (updateOne_resolves_by_identity (store := EqStore) (attached := defaults_only)
              retitle_a (update_result 1 1) two_posts after_retitle post_a
              eq_refl eq_refl eq_refl) as [Hpre [Hpost _]].
  eexists. split; [exact Hpre | exact Hpost].
Defined.

(** The upsert of [upsert_x] as an update-many: the older document with
    the same title is patched as if it were new, like the upserted one. *)
Lemma updateMany_without_selection_witness :
  postUpdateMany (attached := defaults_only) (Query.set_originals [] [] upsert_x)
    upsert_result after_upsert
  = (Ok tt,
     {| rows := [titled_b; upserted];
        patches :=
          [[("ops", FOps [{| op := "add"; path := "/name"; value := VStr "y";
                             originalValue := None |};
                          {| op := "add"; path := "/title"; value := VStr "B";
                             originalValue := None |}]);
            ("ref", FVal (VOid "b2"))];
           [("ops", FOps [{| op := "add"; path := "/name"; value := VStr "x";
                             originalValue := None |};
                          {| op := "add"; path := "/title"; value := VStr "B";
                             originalValue := None |}]);
            ("ref", FVal (VOid "c3"))]] |}).
Proof.
  exact (proj1 (proj2 (updateMany_without_selection (store := EqStore)
                         (attached := defaults_only)
                         upsert_x upsert_result before_upsert after_upsert
                         eq_refl eq_refl))).
Defined.

(** The first selected document was deleted between the phases: the
    second, which the update did not change, is diffed against the first
    one's snapshot and gets a patch. *)
Lemma updateMany_pairs_by_position_witness :
  postUpdateMany (attached := defaults_only) retitle_news_after_pre
    (update_result 2 1) first_news_gone
  = (Ok tt,
     {| rows := [post_c; news_b];
        patches :=
          [[("ops", FOps [{| op := "replace"; path := "/title"; value := VStr "B";
                             originalValue := None |}]);
            ("ref", FVal (VOid "b2"))]] |}).
Proof.
  exact (proj1 (updateMany_pairs_by_position (store := EqStore) (attached := defaults_only)
                  retitle_news_after_pre (update_result 2 1) first_news_gone _ _
                  eq_refl eq_refl ltac:(discriminate) eq_refl)).
Defined.

(** *** Removals *)


Example removal_by_instance_and_by_query :
  Document_remove (attached := defaults_only) (init (attached := defaults_only) post_a) two_posts
  = (Ok tt, {| rows := [post_b]; patches := [patch_for (VOid "b2")] |})
  /\ Model_findOneAndRemove (attached := defaults_only) retitle_a two_posts
     = (Ok (Some post_a), {| rows := [post_b]; patches := [patch_for (VOid "b2")] |}).
Proof. split; reflexivity. Qed.

(** *** Attaching *)


(** The first character is lower-cased as JavaScript does it, also
    outside A to Z. *)
Example collection_name_of_accented_name :
  toLowerCase (ascii_of_nat 201) = ascii_of_nat 233
  /\ toLowerCase "P"%char = "p"%char
  /\ toLowerCase "_"%char = "_"%char.
Proof. repeat split. Qed.

(** A name the connector has a model for already is refused, after the
    method [data] has been put on the schema. *)
Example plugin_on_registered_name :
  plugin bare_opts {| the_schema := plain_schema; models := [("PostPatches", "posts", [])] |}
  = (Throw (OverwriteModelError "Cannot overwrite model once compiled."),
     add_method "data"
       {| the_schema := plain_schema; models := [("PostPatches", "posts", [])] |}).
Proof. reflexivity. Qed.

(** Definitions the schema factory does not take are refused in the
    same way. *)
Example plugin_on_refused_definitions :
  plugin (factory := TypedSchema)
    (VObj [("mongoose", connector); ("name", VStr "PostPatches");
           ("schema", builtin "Schema");
           ("includes", VObj [("tags", VObj [("type", VNull)])])])
    fresh_setup
  = (Throw (TypeError "Invalid schema configuration"), add_method "data" fresh_setup).
Proof. reflexivity. Qed.

Lemma plugin_refuses_second_attachment_witness :
  exists e,
    plugin bare_opts (attached_setup bare_opts fresh_setup)
    = (Throw e, attached_setup bare_opts fresh_setup).
Proof.
  exact (plugin_refuses_second_attachment bare_opts bare_opts fresh_setup
           (attached_setup bare_opts fresh_setup) eq_refl).
Defined.

Lemma plugin_without_schema_factory_half_attaches_witness :
  plugin opts_without_factory fresh_setup
  = (Throw (TypeError "options.schema is not a constructor"), add_method "data" fresh_setup).
Proof.
  apply (plugin_without_schema_factory_half_attaches opts_without_factory fresh_setup).
  - reflexivity.
  - reflexivity.
  - intros [].
  - reflexivity.
  - intros f ps hs. discriminate.
Defined.

Lemma patch_schema_definitions_witness :
  lookup "user" (patch_definitions (options (Attached := with_user)) (builtin "ObjectId"))
  = Some (VObj [("type", builtin "ObjectId")]).
Proof.
  apply (proj1 (patch_schema_definitions (options (Attached := with_user)) (builtin "ObjectId")
                  ltac:(repeat constructor; simpl; tauto))
           "user" (VObj [("type", builtin "ObjectId"); ("from", VStr "_user")])).
  - simpl. left. reflexivity.
  - discriminate.
Defined.

(** A bare [Buffer] gives its enumerable statics, without [from]; a bare
    [Array] the empty definition. *)
Example definitions_of_bare_constructors :
  omit_from JS_Buffer
  = VObj [("poolSize", VNum 8192); ("alloc", builtin "alloc");
          ("isBuffer", builtin "isBuffer"); ("concat", builtin "concat")]
  /\ omit_from JS_Array = VObj [].
Proof. split; reflexivity. Qed.

End Scenarios.
